(** * The doom-fire terminal effect (doom-fire.go): model and properties

    A shallow embedding of the [Flame] type of [doom-fire.go] and of its
    methods [SetDimensions], [Init], [Spread] and [Render], together with
    [mapColor].

    Conventions of the embedding.
    - The platform has 64 bits.  Go's [int] is a 64-bit two's complement
      integer: every [+], [-] and [*] on an [int] is written [int_add],
      [int_sub], [int_mul] and wraps.  [int8] cells wrap at 8 bits
      ([int8_sub], [int8_of_int]).
    - A slice is a [list]; reading or writing outside [0, len) panics.  A
      panic ends the program (the source never recovers), so a method that
      panics has no result: [None].
    - [*rand.Rand] is a deterministic generator; it is kept abstract behind
      the class [RandSource], whose only law is the contract of [Intn].
    - [*bytes.Buffer] is the string of the bytes it holds; [Render] returns
      what [io.Copy] hands to standard output.  [time.Sleep] is not modelled.
*)

From Stdlib Require Import ZArith List Lia Bool String Ascii.
From stdpp Require Import base option list list_numbers.

Open Scope Z_scope.

(** ** Machine integers *)

Definition wrap (bits z : Z) : Z :=
  (z + 2 ^ (bits - 1)) mod 2 ^ bits - 2 ^ (bits - 1).

Definition max_int : Z := 2 ^ 63 - 1.
Definition min_int : Z := - 2 ^ 63.

Definition int_add (a b : Z) : Z := wrap 64 (a + b).
Definition int_sub (a b : Z) : Z := wrap 64 (a - b).
Definition int_mul (a b : Z) : Z := wrap 64 (a * b).

(** The conversion [int8(e)] of an [int], and subtraction of two [int8]s. *)
Definition int8_of_int (a : Z) : Z := wrap 8 a.
Definition int8_sub (a b : Z) : Z := wrap 8 (a - b).

(** ** Slices *)

Definition in_bounds {A} (s : list A) (i : Z) : bool :=
  (0 <=? i) && (i <? Z.of_nat (length s)).

(** [s[i]] as an operand. *)
Definition index {A} (s : list A) (i : Z) : option A :=
  if in_bounds s i then s !! Z.to_nat i else None.

(** [s[i] = v]. *)
Definition store {A} (s : list A) (i : Z) (v : A) : option (list A) :=
  if in_bounds s i then Some (<[Z.to_nat i := v]> s) else None.

(** The most bytes the runtime grants to one allocation on a 64-bit
    platform such as linux/amd64 ([maxAlloc], 48 address bits). *)
Definition max_alloc : Z := 2 ^ 48.

(** [make([]int8, n)]: zeroed cells; the runtime panics on a negative
    length and on one beyond [max_alloc].  (Running out of memory below that
    is outside the model.) *)
Definition make_int8 (n : Z) : option (list Z) :=
  if (n <? 0) || (max_alloc <? n) then None
  else Some (replicate (Z.to_nat n) 0).

(** A [for] loop whose counter runs over [xs] and whose body may panic. *)
Fixpoint for_each {A St} (body : A → St → option St) (xs : list A) (s : St)
  : option St :=
  match xs with
  | [] => Some s
  | x :: xs' => s' ← body x s; for_each body xs' s'
  end.

(** [for x := 0; x < n; x++]: the counter takes the values [0 .. n-1]
    (none when [n <= 0]); [x++] cannot wrap because [x < n <= max_int]. *)
Definition upto (n : Z) : list Z := seqZ 0 n.

(** [for y := n; y > 0; y--]: the counter takes the values [n, n-1 .. 1]. *)
Definition downfrom (n : Z) : list Z := reverse (seqZ 1 n).

(** [for y := 0; y < n; y += 2]: the even numbers below [n].  ([y += 2]
    wraps only for [n = max_int], which is odd.) *)
Definition evens_below (n : Z) : list Z :=
  (λ k, 2 * k) <$> seqZ 0 ((n + 1) / 2).

(** ** Colours *)

Definition color : Type := Z * Z * Z.

Definition black : color := (0, 0, 0).

Definition color_eqb (a b : color) : bool :=
  let '(r1, g1, b1) := a in
  let '(r2, g2, b2) := b in
  (r1 =? r2) && (g1 =? g2) && (b1 =? b2).

Definition cmap : list color :=
  [ (0x07, 0x07, 0x07); (0x1f, 0x07, 0x07); (0x2f, 0x0f, 0x07);
    (0x47, 0x0f, 0x07); (0x57, 0x17, 0x07); (0x67, 0x1f, 0x07);
    (0x77, 0x1f, 0x07); (0x8f, 0x27, 0x07); (0x9f, 0x2f, 0x07);
    (0xaf, 0x3f, 0x07); (0xbf, 0x47, 0x07); (0xc7, 0x47, 0x07);
    (0xdf, 0x4f, 0x07); (0xdf, 0x57, 0x07); (0xdf, 0x57, 0x07);
    (0xd7, 0x5f, 0x07); (0xd7, 0x67, 0x0f); (0xcf, 0x6f, 0x0f);
    (0xcf, 0x77, 0x0f); (0xcf, 0x7f, 0x0f); (0xcf, 0x87, 0x17);
    (0xc7, 0x87, 0x17); (0xc7, 0x8f, 0x17); (0xc7, 0x97, 0x1f);
    (0xbf, 0x9f, 0x1f); (0xbf, 0x9f, 0x1f); (0xbf, 0xa7, 0x27);
    (0xbf, 0xa7, 0x27); (0xbf, 0xaf, 0x2f); (0xb7, 0xaf, 0x2f);
    (0xb7, 0xb7, 0x2f); (0xb7, 0xb7, 0x37); (0xcf, 0xcf, 0x6f);
    (0xdf, 0xdf, 0x9f); (0xef, 0xef, 0xc7); (0xff, 0xff, 0xff) ].

Definition mapColor (v : Z) : option color :=
  if (v <? 0) || (Z.of_nat (length cmap) <=? v)
  then Some black
  else index cmap v.

(** ** The pseudo-random generator *)

(** [Intn n r] is the draw made by [r.Intn(n)] and the generator's next
    state.  [math/rand] promises a value in [0, n) for [n > 0]; the program
    only ever asks for [n = 6]. *)
Class RandSource (R : Type) := {
  Intn : Z → R → Z * R;
  Intn_range : ∀ n r, 0 < n → 0 ≤ (Intn n r).1 < n
}.

(** ** The flame *)

Record Flame (R : Type) := mkFlame {
  width : Z;
  height : Z;
  grid : list Z;
  buffer : string;
  renders : Z;
  rand : R
}.
Arguments mkFlame {R}.
Arguments width {R}.
Arguments height {R}.
Arguments grid {R}.
Arguments buffer {R}.
Arguments renders {R}.
Arguments rand {R}.

Record Dimensions := mkDimensions { Width : Z; Height : Z }.

Section Flame.
Context {R : Type} `{RandSource R}.

Definition Init (flame : Flame R) : option (Flame R) :=
  let w := width flame in
  let h := height flame in
  g0 ← make_int8 (int_mul w h);
  g ← for_each
        (λ j g, store g (int_add (int_mul (int_sub h 1) w) j) 35)
        (upto w) g0;
  Some (mkFlame w h g (buffer flame) (renders flame) (rand flame)).

Definition SetDimensions (flame : Flame R) (d : Dimensions)
  : option (Flame R) :=
  Init (mkFlame (Width d) (Height d) (grid flame) (buffer flame)
                (renders flame) (rand flame)).

(** The body of the inner loop of [Spread] for the source cell (y, x),
    on the grid and the generator. *)
Definition spread_cell (w h y x : Z) (st : list Z * R)
  : option (list Z * R) :=
  let '(g, r) := st in
  let src := int_add (int_mul y w) x in
  let '(j, r) := Intn 6 r in
  let dst := int_sub (int_add (int_sub src w) j) 2 in
  let start := int_mul (int_sub y 1) w in
  let end_ := int_add (int_mul y w) w in
  if (dst <? start) || (dst >? end_) then Some (g, r)
  else
    let end_ := int_sub (int_mul w h) 1 in
    let dst := if dst >? end_ then end_ else dst in
    s ← index g src;
    let '(k, r) := Intn 6 r in
    g ← store g dst (int8_sub s (int8_of_int (int_sub k 1)));
    v ← index g dst;
    g ← (if v >? 35 then store g dst 35 else Some g);
    v ← index g dst;
    g ← (if v <? 0 then store g dst 0 else Some g);
    Some (g, r).

Definition spread_row (w h y : Z) (st : list Z * R) : option (list Z * R) :=
  for_each (spread_cell w h y) (upto w) st.

Definition Spread (flame : Flame R) : option (Flame R) :=
  let w := width flame in
  let h := height flame in
  '(g, r) ← for_each (spread_row w h) (downfrom (int_sub h 1))
              (grid flame, rand flame);
  Some (mkFlame w h g (buffer flame) (renders flame) r).

(** [n] calls of [Spread] in a row. *)
Fixpoint Spread_n (n : nat) (flame : Flame R) : option (Flame R) :=
  match n with
  | O => Some flame
  | S n' => flame' ← Spread flame; Spread_n n' flame'
  end.

End Flame.

(** ** Rendering *)

(** The byte [0x1b]. *)
Definition ESC : ascii := ascii_of_nat 27.

(** ["\x1b[0;0H"] *)
Definition cursor_home : string := String ESC "[0;0H".

(** The upper half block U+2580 of the source text, as its three UTF-8
    bytes [e2 96 80]. *)
Definition glyph : string :=
  String (ascii_of_nat 226) (String (ascii_of_nat 150)
    (String (ascii_of_nat 128) EmptyString)).

Definition digit (d : Z) : ascii := ascii_of_nat (Z.to_nat (48 + d)).

(** The verb [%d] of [fmt.Sprintf] on a [uint8] operand: its decimal
    digits, at most three, without padding. *)
Definition fmt_d (n : Z) : string :=
  if n <? 10 then String (digit n) EmptyString
  else if n <? 100 then
    String (digit (n / 10)) (String (digit (n mod 10)) EmptyString)
  else
    String (digit (n / 100))
      (String (digit (n / 10 mod 10)) (String (digit (n mod 10)) EmptyString)).

(** [fmt.Sprintf("\x1b[38;2;%d;%d;%dm", c[0], c[1], c[2])] *)
Definition set_foreground (c : color) : string :=
  let '(r, g, b) := c in
  String ESC ("[38;2;" ++ fmt_d r ++ ";" ++ fmt_d g ++ ";" ++ fmt_d b ++ "m").

(** [fmt.Sprintf("\x1b[48;2;%d;%d;%dm", c[0], c[1], c[2])] *)
Definition set_background (c : color) : string :=
  let '(r, g, b) := c in
  String ESC ("[48;2;" ++ fmt_d r ++ ";" ++ fmt_d g ++ ";" ++ fmt_d b ++ "m").

(** What the loops of [Render] carry: the buffer and the two cached
    colours. *)
Record pen := mkPen { out : string; prevbg : color; prevfg : color }.

(** The body of the inner loop of [Render] for the character cell whose
    upper half is the grid cell (y, x). *)
Definition render_cell (w : Z) (g : list Z) (y x : Z) (p : pen)
  : option pen :=
  v ← index g (int_add (int_mul y w) x);
  c ← mapColor v;
  let p :=
    if negb (color_eqb c (prevfg p))
    then mkPen (out p ++ set_foreground c) (prevbg p) c
    else p in
  v ← index g (int_add (int_mul (int_add y 1) w) x);
  c ← mapColor v;
  let p :=
    if negb (color_eqb c (prevbg p))
    then mkPen (out p ++ set_background c) c (prevfg p)
    else p in
  Some (mkPen (out p ++ glyph) (prevbg p) (prevfg p)).

Definition render_row (w : Z) (g : list Z) (y : Z) (p : pen) : option pen :=
  for_each (render_cell w g y) (upto w) p.

(** [Render] returns the flame and the bytes copied to standard output. *)
Definition Render {R} (flame : Flame R) : option (Flame R * string) :=
  let w := width flame in
  let h := height flame in
  let p := mkPen (buffer flame ++ cursor_home) (0, 0, 0) (0, 0, 0) in
  p ← for_each (render_row w (grid flame)) (evens_below h) p;
  Some (mkFlame w h (grid flame) EmptyString (int_add (renders flame) 1)
          (rand flame),
        out p).

(** [newFlame(withDimentions(width, height))], for a generator in state
    [r]: no grid yet. *)
Definition newFlame {R} (w h : Z) (r : R) : Flame R :=
  mkFlame w h [] EmptyString 0 r.

(** ** A terminal that decodes the output

    Enough of a VT terminal to read back what [Render] writes: the CSI
    sequences [ESC [ params H] (cursor home) and [ESC [ params m] with
    parameters [38;2;r;g;b] or [48;2;r;g;b] (24-bit foreground or background),
    and three-byte UTF-8 characters, each painted with the current colours at
    the cursor, which then advances.  [painted] lists the cells painted since
    the cursor was last homed: its k-th element is the character cell k
    places after the home position, in reading order. *)

Inductive term_mode :=
  | Ground
  | Escape
  | Csi (params : list Z) (cur : Z)
  | Utf8 (more : nat).

(** [None] is the terminal's default colour. *)
Definition ink : Type := option color.

Record terminal := mkTerminal {
  mode : term_mode;
  fg : ink;
  bg : ink;
  painted : list (ink * ink)
}.

Definition byte_of (c : ascii) : Z := Z.of_nat (nat_of_ascii c).

Definition select_graphic (ps : list Z) (t : terminal) : terminal :=
  match ps with
  | [k; m; r; g; b] =>
      if (k =? 38) && (m =? 2)
      then mkTerminal Ground (Some (r, g, b)) (bg t) (painted t)
      else if (k =? 48) && (m =? 2)
      then mkTerminal Ground (fg t) (Some (r, g, b)) (painted t)
      else mkTerminal Ground (fg t) (bg t) (painted t)
  | _ => mkTerminal Ground (fg t) (bg t) (painted t)
  end.

Definition term_step (t : terminal) (c : ascii) : terminal :=
  let b := byte_of c in
  let goto m := mkTerminal m (fg t) (bg t) (painted t) in
  match mode t with
  | Ground =>
      if b =? 27 then goto Escape
      else if (224 <=? b) && (b <? 240) then goto (Utf8 2)
      else goto Ground
  | Escape => if b =? 91 then goto (Csi [] 0) else goto Ground
  | Csi ps cur =>
      if (48 <=? b) && (b <=? 57) then goto (Csi ps (10 * cur + (b - 48)))
      else if b =? 59 then goto (Csi (ps ++ [cur]) 0)
      else if b =? 109 then select_graphic (ps ++ [cur]) t
      else if b =? 72 then mkTerminal Ground (fg t) (bg t) []
      else goto Ground
  | Utf8 n =>
      if (128 <=? b) && (b <? 192) then
        match n with
        | 2%nat => goto (Utf8 1)
        | 1%nat =>
            mkTerminal Ground (fg t) (bg t) (painted t ++ [(fg t, bg t)])
        | _ => goto Ground
        end
      else goto Ground
  end.

Fixpoint term_run (t : terminal) (s : string) : terminal :=
  match s with
  | EmptyString => t
  | String c s' => term_run (term_step t c) s'
  end.

(** The colours of the painted cells after the terminal, started in state
    [t], has read [s]. *)
Definition decode (t : terminal) (s : string) : list (ink * ink) :=
  painted (term_run t s).


(** ** The propagation step and the reference renderer, as specified

    [Propagate] follows the description of the step: source rows from the
    bottom row up to row 1, columns left to right; arithmetic on unbounded
    integers.  [RenderAlways] is the renderer that writes both colour
    sequences for every cell. *)

Definition clamp (lo hi v : Z) : Z := Z.max lo (Z.min hi v).

Section Propagate.
Context {R : Type} `{RandSource R}.

Definition propagate_cell (w h y x : Z) (st : list Z * R) : list Z * R :=
  let '(g, r) := st in
  let '(j, r) := Intn 6 r in
  let d := (y - 1) * w + x + (j - 2) in
  if (d <? (y - 1) * w) || (d >? y * w + w) then (g, r)
  else
    let d := if d >? w * h - 1 then w * h - 1 else d in
    let '(k, r) := Intn 6 r in
    let source := g !!! Z.to_nat (y * w + x) in
    (<[Z.to_nat d := clamp 0 35 (source - (k - 1))]> g, r).

Definition propagate_row (w h : Z) (st : list Z * R) (y : Z) : list Z * R :=
  foldl (λ st x, propagate_cell w h y x st) st (upto w).

Definition Propagate (flame : Flame R) : Flame R :=
  let w := width flame in
  let h := height flame in
  let '(g, r) :=
    foldl (propagate_row w h) (grid flame, rand flame) (downfrom (h - 1)) in
  mkFlame w h g (buffer flame) (renders flame) r.

End Propagate.

Definition render_cell_always (w : Z) (g : list Z) (y x : Z) (buf : string)
  : option string :=
  top ← index g (int_add (int_mul y w) x);
  c_fg ← mapColor top;
  bottom ← index g (int_add (int_mul (int_add y 1) w) x);
  c_bg ← mapColor bottom;
  Some (buf ++ set_foreground c_fg ++ set_background c_bg ++ glyph)%string.

Definition RenderAlways {R} (flame : Flame R) : option string :=
  let w := width flame in
  for_each
    (λ y, for_each (render_cell_always w (grid flame) y) (upto w))
    (evens_below (height flame))
    (buffer flame ++ cursor_home)%string.

(** ** Well-formed flames *)

(** An intensity. *)
Definition intensity (v : Z) : Prop := 0 ≤ v ≤ 35.

Definition grid_in_range (g : list Z) : Prop := Forall intensity g.

(** Dimensions a grid can be allocated for: non-negative [int]s whose
    product is a length [make] accepts. *)
Definition dims_ok (w h : Z) : Prop :=
  0 ≤ w ≤ max_int ∧ 0 ≤ h ≤ max_int ∧ w * h ≤ max_alloc.

(** The grid has one cell per position. *)
Definition flame_wf {R} (f : Flame R) : Prop :=
  dims_ok (width f) (height f) ∧
  Z.of_nat (length (grid f)) = width f * height f.

(** The cell at row [y], column [x] of the grid of [f]. *)
Definition cell {R} (f : Flame R) (y x : Z) : option Z :=
  index (grid f) (y * width f + x).

(** ** A generator that replays a script

    The draws are read off a list (reduced into the range asked for); once
    the list is used up every draw is 0. *)

Definition scripted : Type := list Z.

Definition scripted_Intn (n : Z) (r : scripted) : Z * scripted :=
  match r with
  | [] => (0, [])
  | d :: r' => (d mod n, r')
  end.

#[export] Program Instance scripted_rand : RandSource scripted :=
  {| Intn := scripted_Intn |}.
Next Obligation.
  intros n [|d r] Hn; simpl; [lia|]. apply Z.mod_pos_bound; lia.
Qed.

(** ** Auxiliary notions of the proofs *)

(** The check run on each palette entry: a triple of bytes other than the
    zero colour. *)
Definition palette_entry_ok (v : Z) : bool :=
  match mapColor v with
  | Some (r, g, b) =>
      negb (color_eqb (r, g, b) black)
      && (0 <=? r) && (r <? 256) && (0 <=? g) && (g <? 256)
      && (0 <=? b) && (b <? 256)
  | None => false
  end.

(** A colour whose three components are bytes. *)
Definition byte_color (c : color) : Prop :=
  let '(r, g, b) := c in 0 ≤ r < 256 ∧ 0 ≤ g < 256 ∧ 0 ≤ b < 256.

(** Where a write of [Spread] can land, for a grid of [w * h] cells: inside
    the grid and at most two cells into the last row. *)
Definition write_site (w h d : Z) : Prop := 0 ≤ d < w * h ∧ d ≤ (h - 1) * w + 2.

(** What the terminal shows after the cached writer and after the
    unconditional one agree, and each cached colour is the colour the
    terminal really has, or else ([fresh_cache]) it is still the zero colour
    the cache starts with, on a grid of intensities. *)
Definition same_picture (t : terminal) (g : list Z) (p : pen) (buf : string)
  : Prop :=
  let fresh_cache c := grid_in_range g ∧ color_eqb c (0, 0, 0) = true in
  mode (term_run t (out p)) = Ground
  ∧ mode (term_run t buf) = Ground
  ∧ painted (term_run t (out p)) = painted (term_run t buf)
  ∧ (fg (term_run t (out p)) = Some (prevfg p) ∨ fresh_cache (prevfg p))
  ∧ (bg (term_run t (out p)) = Some (prevbg p) ∨ fresh_cache (prevbg p)).

(** [s] extends [pre]: both are buffers, and [s] is [pre] with more written
    after it. *)
Definition extends (pre s : string) : Prop := ∃ more, s = (pre ++ more)%string.

(** ** Worked inputs *)

(** The flame the program starts with, for a script of draws. *)
Definition fresh (script : scripted) : Flame scripted := newFlame 0 0 script.

(** A 4 by 4 flame as [SetDimensions] leaves it.  With the script below the
    first call of [Spread] draws, for the four cells of the last row, offsets
    0, 0, 0 and +1 and decays 0, 0, 0 and 4, and 0 for all later draws. *)
Definition flame_4x4 : Flame scripted :=
  mkFlame 4 4 [0; 0; 0; 0; 0; 0; 0; 0; 0; 0; 0; 0; 35; 35; 35; 35]
    EmptyString 0 [2; 1; 2; 1; 2; 1; 3; 5].

(** A terminal before anything was written to it. *)
Definition blank_terminal : terminal := mkTerminal Ground None None [].

(** ** The rest of the program: construction, the loop of [fire], [main]

    [newFlame_opts] is [newFlame] with its variadic list of options ([newFlame]
    above is the one call the program makes).  An option mutates the flame and
    may return an error, of a type [E] the program never builds a value of. *)

Definition flame_option (R E : Type) : Type := Flame R → Flame R * option E.

Definition withDimentions {R E} (width height : Z) : flame_option R E :=
  λ i, (mkFlame width height (grid i) (buffer i) (renders i) (rand i), None).

(** [for _, opt := range opts { if err := opt(&rc); err != nil { return nil, err } }] *)
Fixpoint apply_options {R E} (opts : list (flame_option R E)) (rc : Flame R)
  : E + Flame R :=
  match opts with
  | [] => inr rc
  | opt :: opts' =>
      let '(rc, err) := opt rc in
      match err with
      | Some e => inl e
      | None => apply_options opts' rc
      end
  end.

(** [r] is the state of the generator [rand.New] returns. *)
Definition newFlame_opts {R E} (r : R) (opts : list (flame_option R E))
  : E + Flame R :=
  apply_options opts (mkFlame 0 0 [] EmptyString 0 r).

(** [Dimensions{Width: width, Height: height * 2}], which [main] sends at the
    start and at every SIGWINCH, for the size the terminal reports. *)
Definition main_dims (width height : Z) : Dimensions :=
  mkDimensions width (int_mul height 2).

(** What a terminal can report: the columns and rows of a [winsize] are
    16-bit unsigned numbers. *)
Definition terminal_size (width height : Z) : Prop :=
  0 ≤ width ≤ 65535 ∧ 0 ≤ height ≤ 65535.

(** The case one iteration of the loop of [fire] takes in its [select]:
    the context is done, dimensions arrive on the channel, or neither
    ([default]). *)
Inductive event :=
  | Done
  | Received (dims : Dimensions)
  | Default.

Section Fire.
Context {R : Type} `{RandSource R}.

(** The loop of [fire], for the sequence of cases its [select] takes: the
    flame it ends with and the frames written, or [None] when it panics.
    [Done] ends the loop; so does the end of the list, which stands for the
    loop observed so far. *)
Fixpoint fire_loop (evs : list event) (flame : Flame R)
  : option (Flame R * list string) :=
  match evs with
  | [] => Some (flame, [])
  | Done :: _ => Some (flame, [])
  | Received dims :: evs' =>
      flame ← SetDimensions flame dims;
      fire_loop evs' flame
  | Default :: evs' =>
      '(flame, frame) ← Render flame;
      flame ← Spread flame;
      '(flame, frames) ← fire_loop evs' flame;
      Some (flame, frame :: frames)
  end.

(** [fire]: the flame is [newFlame(withDimentions(0, 0))]. *)
Definition fire (evs : list event) (r : R) : option (Flame R * list string) :=
  fire_loop evs (newFlame 0 0 r).

End Fire.

(** The number of iterations that take the [default] case before the
    loop ends. *)
Fixpoint frames_due (evs : list event) : nat :=
  match evs with
  | [] => O
  | Done :: _ => O
  | Received _ :: evs' => frames_due evs'
  | Default :: evs' => S (frames_due evs')
  end.

(** The sizes the terminal reports over a run are such that a grid with
    cells has rows. *)
Fixpoint sizes_have_rows (evs : list event) : Prop :=
  match evs with
  | [] => True
  | Done :: _ => True
  | Received d :: evs' =>
      (∃ width height, d = main_dims width height
         ∧ terminal_size width height ∧ (0 < height ∨ width = 0))
      ∧ sizes_have_rows evs'
  | Default :: evs' => sizes_have_rows evs'
  end.

(** What the loop keeps between iterations: a grid of intensities with one
    cell per position, an even height, an empty buffer. *)
Definition between_frames {R} (flame : Flame R) : Prop :=
  flame_wf flame ∧ Z.even (height flame) = true
  ∧ grid_in_range (grid flame) ∧ buffer flame = EmptyString.

(** ** The picture a frame is meant to paint *)

(** The colours of the character cell whose upper half is grid cell
    (y, x): the palette colour of that cell on the palette colour of the cell
    below it. *)
Definition cell_inks (w : Z) (g : list Z) (y x : Z) : ink * ink :=
  (mapColor (g !!! Z.to_nat (y * w + x)),
   mapColor (g !!! Z.to_nat ((y + 1) * w + x))).

(** All character cells, row pair by row pair, left to right. *)
Definition frame_inks (w h : Z) (g : list Z) : list (ink * ink) :=
  y ← evens_below h; x ← upto w; [cell_inks w g y x].

(** ** A generator whose every draw is 2

    With it [Spread] never drifts (offset 2 - 2 = 0) and always decays by
    2 - 1 = 1. *)

Definition steady : Type := unit.

#[export] Program Instance steady_rand : RandSource steady :=
  {| Intn n r := (2 mod n, r) |}.
Next Obligation. intros n r Hn. simpl. apply Z.mod_pos_bound. lia. Qed.

(** ** Further worked inputs *)

(** A run of the loop: a frame before any size is known, a 4 by 2
    terminal, two frames, the end. *)
Definition short_run : list event :=
  [Default; Received (main_dims 4 2); Default; Default; Done].

(** A 2 by 3 flame as [SetDimensions] leaves it. *)
Definition flame_2x3 : Flame scripted :=
  mkFlame 2 3 [0; 0; 0; 0; 35; 35] EmptyString 0 [].

(** * Properties *)

(** ** Machine integers *)

Lemma wrap_small bits z :
  0 < bits → - 2 ^ (bits - 1) ≤ z < 2 ^ (bits - 1) → wrap bits z = z.
Proof.
  intros Hb Hz. unfold wrap.
  assert (2 ^ bits = 2 * 2 ^ (bits - 1)) as ->.
  { rewrite <- Z.pow_succ_r by lia. f_equal. lia. }
  rewrite Z.mod_small; lia.
Qed.

Lemma int_add_small a b :
  min_int ≤ a + b ≤ max_int → int_add a b = a + b.
Proof. unfold min_int, max_int. intros. apply wrap_small; simpl; lia. Qed.

Lemma int_sub_small a b :
  min_int ≤ a - b ≤ max_int → int_sub a b = a - b.
Proof. unfold min_int, max_int. intros. apply wrap_small; simpl; lia. Qed.

Lemma int_mul_small a b :
  min_int ≤ a * b ≤ max_int → int_mul a b = a * b.
Proof. unfold min_int, max_int. intros. apply wrap_small; simpl; lia. Qed.

Lemma int8_small a : -128 ≤ a ≤ 127 → int8_of_int a = a.
Proof. intros. apply wrap_small; simpl; lia. Qed.

Lemma int8_sub_small a b : -128 ≤ a - b ≤ 127 → int8_sub a b = a - b.
Proof. intros. apply wrap_small; simpl; lia. Qed.

(** Case analysis on the integer comparisons of the goal. *)
Ltac compare_cases :=
  repeat match goal with
    | |- context [?a <=? ?b] => destruct (Z.leb_spec a b)
    | |- context [?a <? ?b] => destruct (Z.ltb_spec a b)
    | |- context [?a >? ?b] => rewrite (Z.gtb_ltb a b)
    | |- context [?a =? ?b] => destruct (Z.eqb_spec a b)
    end;
  simpl; try lia; try done.

(** The three constants, for [lia]: it is given these bounds and never
    the powers themselves. *)
Lemma int_constants :
  min_int = - max_int - 1 ∧ 8 ≤ max_alloc ∧ 2 * max_alloc + 8 ≤ max_int.
Proof. unfold min_int, max_int, max_alloc. lia. Qed.

(** ** Slices *)

Lemma in_bounds_true {A} (s : list A) i :
  0 ≤ i < Z.of_nat (length s) → in_bounds s i = true.
Proof. intros. unfold in_bounds. apply andb_true_intro. lia. Qed.

Lemma index_in {A} `{Inhabited A} (s : list A) i :
  0 ≤ i < Z.of_nat (length s) → index s i = Some (s !!! Z.to_nat i).
Proof.
  intros Hi. unfold index. rewrite in_bounds_true by done.
  apply list_lookup_lookup_total_lt. lia.
Qed.

Lemma index_Some {A} (s : list A) i v :
  index s i = Some v → 0 ≤ i < Z.of_nat (length s) ∧ s !! Z.to_nat i = Some v.
Proof.
  unfold index, in_bounds. intros Hi.
  destruct (0 <=? i) eqn:E1, (i <? Z.of_nat (length s)) eqn:E2;
    simpl in Hi; try discriminate.
  split; [lia | done].
Qed.

Lemma store_in {A} (s : list A) i v :
  0 ≤ i < Z.of_nat (length s) → store s i v = Some (<[Z.to_nat i := v]> s).
Proof. intros. unfold store. by rewrite in_bounds_true. Qed.

Lemma index_insert_eq {A} `{Inhabited A} (s : list A) i v :
  0 ≤ i < Z.of_nat (length s) → index (<[Z.to_nat i := v]> s) i = Some v.
Proof.
  intros Hi. unfold index. rewrite in_bounds_true by (rewrite length_insert; lia).
  apply list_lookup_insert_eq. lia.
Qed.

Lemma make_int8_ok n :
  0 ≤ n ≤ max_alloc → make_int8 n = Some (replicate (Z.to_nat n) 0).
Proof.
  intros. unfold make_int8.
  destruct (n <? 0) eqn:E1, (max_alloc <? n) eqn:E2; simpl; try lia. done.
Qed.

(** ** Loops *)

Lemma for_each_cons {A St} (body : A → St → option St) x xs s :
  for_each body (x :: xs) s = s' ← body x s; for_each body xs s'.
Proof. reflexivity. Qed.

(** The loop rule: an invariant that every iteration keeps, without
    panicking, holds when the loop ends, and the loop does end. *)
Lemma for_each_invariant {A St} (body : A → St → option St) (I : St → Prop) xs s :
  I s →
  (∀ x s, x ∈ xs → I s → ∃ s', body x s = Some s' ∧ I s') →
  ∃ s', for_each body xs s = Some s' ∧ I s'.
Proof.
  revert s. induction xs as [|x xs IH]; intros s Hs Hbody; simpl.
  - eauto.
  - destruct (Hbody x s) as (s1 & -> & Hs1); [left | done |]. simpl.
    apply IH; [done|]. intros x' s' Hx'. apply Hbody. by right.
Qed.

(** A loop whose body computes a total function is a left fold. *)
Lemma for_each_foldl {A St} (body : A → St → option St) (f : St → A → St)
    (I : St → Prop) xs s :
  I s →
  (∀ x s, x ∈ xs → I s → body x s = Some (f s x) ∧ I (f s x)) →
  for_each body xs s = Some (foldl f s xs) ∧ I (foldl f s xs).
Proof.
  revert s. induction xs as [|x xs IH]; intros s Hs Hbody; simpl.
  - done.
  - destruct (Hbody x s) as [-> Hs1]; [left | done |]. simpl.
    apply IH; [done|]. intros x' s' Hx'. apply Hbody. by right.
Qed.

Lemma elem_of_upto n x : x ∈ upto n ↔ 0 ≤ x < n.
Proof. unfold upto. rewrite elem_of_seqZ. lia. Qed.

Lemma elem_of_downfrom n y : y ∈ downfrom n ↔ 1 ≤ y ≤ n.
Proof. unfold downfrom. rewrite elem_of_reverse, elem_of_seqZ. lia. Qed.

Lemma elem_of_evens_below n y :
  y ∈ evens_below n ↔ 0 ≤ y < n ∧ Z.even y = true.
Proof.
  unfold evens_below. rewrite list_elem_of_fmap. split.
  - intros (k & -> & Hk). apply elem_of_seqZ in Hk.
    split; [|by rewrite Z.even_mul].
    pose proof (Z.div_mod (n + 1) 2). pose proof (Z.mod_pos_bound (n + 1) 2). lia.
  - intros [Hy Hev]. apply Z.even_spec in Hev as [k ->].
    exists k. split; [done|]. apply elem_of_seqZ.
    pose proof (Z.div_mod (n + 1) 2). pose proof (Z.mod_pos_bound (n + 1) 2). lia.
Qed.

(** The loop rule with the position of the counter in the invariant. *)
Lemma for_each_invariant_at {A St} (body : A → St → option St)
    (I : nat → St → Prop) xs s :
  I 0%nat s →
  (∀ k x s, xs !! k = Some x → I k s → ∃ s', body x s = Some s' ∧ I (S k) s') →
  ∃ s', for_each body xs s = Some s' ∧ I (length xs) s'.
Proof.
  revert I s. induction xs as [|x xs IH]; intros I s Hs Hbody; simpl.
  - eauto.
  - destruct (Hbody 0%nat x s) as (s1 & -> & Hs1); [done | done |]. simpl.
    apply (IH (λ k, I (S k))); [done|].
    intros k x' s' Hx'. apply (Hbody (S k)). done.
Qed.

Lemma lookup_upto n k x :
  upto n !! k = Some x ↔ x = Z.of_nat k ∧ Z.of_nat k < n.
Proof. unfold upto. rewrite lookup_seqZ. lia. Qed.

Lemma length_upto n : length (upto n) = Z.to_nat n.
Proof. apply length_seqZ. Qed.

(** ** The palette *)

Lemma cmap_length : length cmap = 36%nat.
Proof. reflexivity. Qed.

Lemma palette_entries_ok : forallb palette_entry_ok (seqZ 0 36) = true.
Proof. vm_compute. reflexivity. Qed.

Lemma color_eqb_eq a b : color_eqb a b = true ↔ a = b.
Proof.
  destruct a as [[r1 g1] b1], b as [[r2 g2] b2]. unfold color_eqb.
  rewrite !andb_true_iff, !Z.eqb_eq. split.
  - intros [[-> ->] ->]. done.
  - intros [= -> -> ->]. done.
Qed.

Lemma color_eqb_refl a : color_eqb a a = true.
Proof. by apply color_eqb_eq. Qed.

(** An intensity has a colour in the palette; it is a triple of bytes and
    it is not the zero colour. *)
Lemma mapColor_intensity v :
  intensity v →
  ∃ c, mapColor v = Some c ∧ color_eqb c (0, 0, 0) = false ∧ byte_color c.
Proof.
  intros Hv.
  assert (palette_entry_ok v = true) as Hok.
  { pose proof palette_entries_ok as Hall.
    rewrite forallb_forall in Hall. apply Hall.
    apply list_elem_of_In, elem_of_seqZ. unfold intensity in Hv. lia. }
  unfold palette_entry_ok in Hok.
  destruct (mapColor v) as [[[r g] b]|]; [|done].
  exists (r, g, b). rewrite !andb_true_iff in Hok.
  destruct Hok as [[[[[[Hne ?] ?] ?] ?] ?] ?].
  split; [done|]. split.
  - apply negb_true_iff in Hne. exact Hne.
  - simpl. lia.
Qed.

(** C6.  [mapColor] never panics.  For an intensity it returns the entry
    of the 36-entry palette at that index; for every other value it returns
    black. *)
Theorem mapColor_total (v : Z) :
  length cmap = 36%nat
  ∧ ∃ c, mapColor v = Some c
      ∧ if (0 <=? v) && (v <=? 35)
        then cmap !! Z.to_nat v = Some c
        else c = black.
Proof.
  split; [reflexivity|]. unfold mapColor. rewrite cmap_length.
  destruct (Z.ltb_spec v 0); simpl.
  - exists black. split; [done|]. compare_cases.
  - destruct (Z.leb_spec (Z.of_nat 36) v); simpl.
    + exists black. split; [done|]. compare_cases.
    + assert (0 ≤ v < Z.of_nat (length cmap)) as Hv by (rewrite cmap_length; lia).
      rewrite index_in by done. eexists. split; [done|].
      compare_cases. apply list_lookup_lookup_total_lt. lia.
Qed.

(** ** Initialisation *)

Section Init.
Context {R : Type}.
Implicit Types flame : Flame R.

Lemma dims_ok_product w h : dims_ok w h → 0 ≤ w * h ≤ max_alloc.
Proof. intros (Hw & Hh & Hwh). nia. Qed.

(** Row [y] of the grid starts at [y * w]; it lies inside the grid. *)
Lemma row_bounds w h y :
  dims_ok w h → 0 ≤ y < h → 0 ≤ y * w ∧ y * w + w ≤ w * h.
Proof. intros (Hw & Hh & Hwh) Hy. nia. Qed.

(** The grid [Init] builds, cell by cell: zero above the last row, 35 in it. *)
Lemma Init_cells flame :
  dims_ok (width flame) (height flame) →
  0 < height flame ∨ width flame = 0 →
  ∃ g, Init flame
       = Some (mkFlame (width flame) (height flame) g (buffer flame)
                 (renders flame) (rand flame))
     ∧ Z.of_nat (length g) = width flame * height flame
     ∧ ∀ i, 0 ≤ i < width flame * height flame →
         g !! Z.to_nat i
         = Some (if (height flame - 1) * width flame <=? i then 35 else 0).
Proof.
  destruct flame as [w h g0 buf n r]; simpl. intros Hd Hh.
  pose proof (dims_ok_product w h Hd) as Hwh.
  pose proof int_constants as (Hmin & Ha & Hmax).
  unfold Init; simpl.
  rewrite (int_mul_small w h) by lia. rewrite make_int8_ok by lia. simpl.
  set (base := (h - 1) * w).
  edestruct (for_each_invariant_at
    (λ j g, store g (int_add (int_mul (int_sub h 1) w) j) 35)
    (λ k g, Z.of_nat (length g) = w * h ∧
            ∀ i, 0 ≤ i < w * h →
              g !! Z.to_nat i
              = Some (if (base <=? i) && (i <? base + Z.of_nat k) then 35 else 0))
    (upto w) (replicate (Z.to_nat (w * h)) 0)) as (g & Hg & Hlen & Hcells).
  - split; [rewrite length_replicate; lia|].
    intros i Hi. rewrite lookup_replicate_2 by lia. compare_cases.
  - intros k x g Hx (Hlen & Hcells). apply lookup_upto in Hx as [-> Hk].
    destruct Hh as [Hh|Hh]; [|lia].
    destruct (row_bounds w h (h - 1) Hd) as [Hb1 Hb2]; [lia|]. fold base in Hb1, Hb2.
    destruct Hd as (Hw & Hh' & _).
    rewrite (int_sub_small h 1) by lia.
    rewrite (int_mul_small (h - 1) w) by (fold base; lia). fold base.
    rewrite (int_add_small base) by lia.
    rewrite store_in by lia. eexists. split; [done|].
    split; [rewrite length_insert; lia|].
    intros i Hi. destruct (decide (i = base + Z.of_nat k)) as [->|Hne].
    + rewrite list_lookup_insert_eq by lia. compare_cases.
    + rewrite list_lookup_insert_ne by lia. rewrite Hcells by done.
      compare_cases.
  - rewrite Hg. simpl. eexists. split; [done|]. split; [done|].
    intros i Hi. rewrite Hcells by done. rewrite length_upto.
    destruct Hh as [Hh| ->]; [|lia].
    destruct (row_bounds w h (h - 1) Hd) as [Hb1 Hb2]; [lia|]. fold base in Hb1, Hb2.
    destruct Hd as (Hw & Hh' & _). compare_cases.
Qed.

End Init.

(** ** Propagation *)

(** Rewrites the [int] operations of the goal whose result [lia] can bound
    into plain arithmetic, innermost first. *)
Ltac int_plain :=
  repeat match goal with
    | |- context [int_add ?a ?b] => rewrite (int_add_small a b) by lia
    | |- context [int_sub ?a ?b] => rewrite (int_sub_small a b) by lia
    | |- context [int_mul ?a ?b] => rewrite (int_mul_small a b) by lia
    end.

Section Spread.
Context {R : Type} `{RandSource R}.
Implicit Types (flame : Flame R) (g : list Z) (r : R).

Lemma Intn6_range r : 0 ≤ (Intn 6 r).1 < 6.
Proof. apply Intn_range. lia. Qed.

Lemma clamp_intensity v : intensity (clamp 0 35 v).
Proof. unfold intensity, clamp. lia. Qed.

(** What one iteration of the inner loop does, for a source cell inside
    the grid: one draw decides the destination; outside the accepted window
    nothing else happens; otherwise a second draw decides the decay and the
    destination receives the source's value less the decay, as an [int8],
    brought into [0, 35]. *)
Lemma spread_cell_exact w h y x g r :
  dims_ok w h → 1 ≤ y < h → 0 ≤ x < w →
  Z.of_nat (length g) = w * h →
  spread_cell w h y x (g, r)
  = Some
      (let '(j, r1) := Intn 6 r in
       let d := (y - 1) * w + x + (j - 2) in
       if (d <? (y - 1) * w) || (d >? y * w + w) then (g, r1)
       else
         let d := if d >? w * h - 1 then w * h - 1 else d in
         let '(k, r2) := Intn 6 r1 in
         (<[Z.to_nat d :=
              clamp 0 35 (int8_sub (g !!! Z.to_nat (y * w + x)) (k - 1))]> g,
          r2)).
Proof.
  intros Hd Hy Hx Hlen.
  pose proof (dims_ok_product w h Hd) as Hwh.
  destruct (row_bounds w h y Hd) as [Hp1 Hp2]; [lia|].
  destruct (row_bounds w h (y - 1) Hd) as [Hq1 Hq2]; [lia|].
  pose proof int_constants as (Hmin & Ha & Hmax).
  destruct Hd as (Hw & Hh & _).
  unfold spread_cell.
  pose proof (Intn6_range r) as Hj.
  destruct (Intn 6 r) as [j r1]; simpl in Hj.
  int_plain.
  replace (y * w + x - w + j - 2) with ((y - 1) * w + x + (j - 2)) by lia.
  set (d := (y - 1) * w + x + (j - 2)).
  destruct ((d <? (y - 1) * w) || (d >? y * w + w)) eqn:Hskip; [done|].
  apply orb_false_elim in Hskip as [Hlo Hhi].
  apply Z.ltb_ge in Hlo. rewrite Z.gtb_ltb in Hhi. apply Z.ltb_ge in Hhi.
  set (d' := if d >? w * h - 1 then w * h - 1 else d).
  assert (0 ≤ d' < w * h) as Hd'.
  { unfold d'. rewrite Z.gtb_ltb. destruct (Z.ltb_spec (w * h - 1) d); lia. }
  rewrite index_in by lia. simpl.
  pose proof (Intn6_range r1) as Hk.
  destruct (Intn 6 r1) as [k r2]; simpl in Hk.
  int_plain. rewrite int8_small by lia.
  set (v := int8_sub (g !!! Z.to_nat (y * w + x)) (k - 1)).
  rewrite store_in by lia. simpl.
  rewrite index_insert_eq by lia. simpl.
  unfold clamp. rewrite Z.gtb_ltb.
  destruct (Z.ltb_spec 35 v) as [Hv|Hv].
  - rewrite store_in by (rewrite length_insert; lia). simpl.
    rewrite list_insert_insert_eq.
    rewrite index_insert_eq by lia. simpl.
    do 3 f_equal. lia.
  - simpl. rewrite index_insert_eq by lia. simpl.
    destruct (Z.ltb_spec v 0) as [Hv0|Hv0].
    + rewrite store_in by (rewrite length_insert; lia). simpl.
      rewrite list_insert_insert_eq. do 3 f_equal. lia.
    + simpl. do 3 f_equal. lia.
Qed.

(** On a grid of intensities the [int8] subtraction does not wrap, and the
    iteration is the specified step; the grid stays one of intensities. *)
Lemma spread_cell_propagate w h y x g r :
  dims_ok w h → 1 ≤ y < h → 0 ≤ x < w →
  Z.of_nat (length g) = w * h → grid_in_range g →
  spread_cell w h y x (g, r) = Some (propagate_cell w h y x (g, r))
  ∧ Z.of_nat (length (propagate_cell w h y x (g, r)).1) = w * h
  ∧ grid_in_range (propagate_cell w h y x (g, r)).1.
Proof.
  intros Hd Hy Hx Hlen Hg.
  rewrite spread_cell_exact by done. unfold propagate_cell.
  destruct (row_bounds w h y Hd) as [Hp1 Hp2]; [lia|].
  pose proof (Intn6_range r) as Hj.
  destruct (Intn 6 r) as [j r1]; simpl in Hj. cbv zeta.
  destruct (_ || _); [done|].
  pose proof (Intn6_range r1) as Hk.
  destruct (Intn 6 r1) as [k r2]; simpl in Hk.
  assert (intensity (g !!! Z.to_nat (y * w + x))) as Hs.
  { eapply Forall_lookup_1; [exact Hg|].
    apply list_lookup_lookup_total_lt. lia. }
  unfold intensity in Hs.
  rewrite int8_sub_small by lia. simpl.
  split; [done|]. split; [by rewrite length_insert|].
  apply Forall_insert; [done | apply clamp_intensity].
Qed.

(** On any grid, an iteration does not panic and either leaves the grid as
    it is or writes one intensity, at a flat index from the start of the row
    above the source to two cells into the source's own row, inside the
    grid. *)
Lemma spread_cell_writes w h y x g r :
  dims_ok w h → 1 ≤ y < h → 0 ≤ x < w →
  Z.of_nat (length g) = w * h →
  ∃ g' r', spread_cell w h y x (g, r) = Some (g', r')
    ∧ (g' = g
       ∨ ∃ d v, g' = <[Z.to_nat d := v]> g
           ∧ (y - 1) * w ≤ d ≤ y * w + 2 ∧ d < w * h ∧ intensity v).
Proof.
  intros Hd Hy Hx Hlen.
  rewrite spread_cell_exact by done.
  destruct (row_bounds w h y Hd) as [Hp1 Hp2]; [lia|].
  pose proof (Intn6_range r) as Hj.
  destruct (Intn 6 r) as [j r1]; simpl in Hj. cbv zeta.
  set (d := (y - 1) * w + x + (j - 2)).
  destruct ((d <? (y - 1) * w) || (d >? y * w + w)) eqn:Hskip; [by eauto|].
  apply orb_false_elim in Hskip as [Hlo Hhi].
  apply Z.ltb_ge in Hlo. rewrite Z.gtb_ltb in Hhi. apply Z.ltb_ge in Hhi.
  destruct (Intn 6 r1) as [k r2].
  do 2 eexists. split; [done|]. right. do 2 eexists. split; [done|].
  split; [|split; [|apply clamp_intensity]];
    rewrite Z.gtb_ltb; destruct (Z.ltb_spec (w * h - 1) d); lia.
Qed.

(** A property of grids that no write of an intensity at a [write_site]
    destroys is kept by [Spread], which does not panic. *)
Lemma Spread_invariant (P : list Z → Prop) flame :
  flame_wf flame →
  (∀ g d v, P g → Z.of_nat (length g) = width flame * height flame →
     write_site (width flame) (height flame) d → intensity v →
     P (<[Z.to_nat d := v]> g)) →
  P (grid flame) →
  ∃ g r, Spread flame
         = Some (mkFlame (width flame) (height flame) g (buffer flame)
                   (renders flame) r)
    ∧ Z.of_nat (length g) = width flame * height flame
    ∧ P g.
Proof.
  destruct flame as [w h g0 buf n r0]. unfold flame_wf. simpl.
  intros [Hd Hlen] Hclosed HP.
  pose proof int_constants as (Hmin & Ha & Hmax).
  unfold Spread; simpl.
  pose (I := λ st : list Z * R, Z.of_nat (length st.1) = w * h ∧ P st.1).
  destruct (for_each_invariant (spread_row w h) I
              (downfrom (int_sub h 1)) (g0, r0)) as ([g r] & -> & Hlen' & HP');
    [done | | simpl; eauto].
  intros y st Hy HI. apply elem_of_downfrom in Hy.
  assert (1 ≤ y < h) as Hy'.
  { destruct Hd as (_ & Hh & _). revert Hy. int_plain. lia. }
  apply for_each_invariant; [done|].
  intros x [g r] Hx [Hl HPg]. apply elem_of_upto in Hx. simpl in Hl, HPg.
  destruct (spread_cell_writes w h y x g r) as (g' & r' & -> & Hw);
    [done..|].
  eexists. split; [done|]. unfold I; simpl.
  destruct Hw as [->|(d & v & -> & Hd1 & Hd2 & Hv)]; [done|].
  rewrite length_insert. split; [done|].
  apply Hclosed; [done..| |done].
  destruct (row_bounds w h (y - 1) Hd) as [Hq1 Hq2]; [lia|].
  destruct (row_bounds w h (h - 1) Hd) as [Hb1 Hb2]; [lia|].
  destruct Hd as (Hw' & Hh' & _).
  unfold write_site. split; [lia|].
  assert (y * w ≤ (h - 1) * w) by nia. lia.
Qed.

(** The same for any number of calls. *)
Lemma Spread_n_invariant (P : list Z → Prop) n flame :
  flame_wf flame →
  (∀ g d v, P g → Z.of_nat (length g) = width flame * height flame →
     write_site (width flame) (height flame) d → intensity v →
     P (<[Z.to_nat d := v]> g)) →
  P (grid flame) →
  ∃ g r, Spread_n n flame
         = Some (mkFlame (width flame) (height flame) g (buffer flame)
                   (renders flame) r)
    ∧ Z.of_nat (length g) = width flame * height flame
    ∧ P g.
Proof.
  revert flame. induction n as [|n IH]; intros flame Hwf Hclosed HP; simpl.
  - destruct flame as [w h g0 buf k r0]. destruct Hwf as [_ Hlen]. eauto.
  - destruct (Spread_invariant P flame) as (g & r & -> & Hlen & HPg);
      [done..|]. simpl.
    destruct (IH (mkFlame (width flame) (height flame) g (buffer flame)
                    (renders flame) r)) as (g' & r' & Hn & Hlen' & HP');
      [split; [apply Hwf | done] | done | done |].
    eauto.
Qed.

(** On any grid, after any number of calls every cell holds an intensity
    or the value it had at the start: only written cells change, and what
    is written is an intensity. *)
Lemma Spread_n_cells n flame :
  flame_wf flame →
  ∃ g r, Spread_n n flame
         = Some (mkFlame (width flame) (height flame) g (buffer flame)
                   (renders flame) r)
    ∧ ∀ i v, g !! i = Some v → intensity v ∨ grid flame !! i = Some v.
Proof.
  intros Hwf.
  destruct (Spread_n_invariant
    (λ g, ∀ i v, g !! i = Some v → intensity v ∨ grid flame !! i = Some v)
    n flame) as (g & r & Hn & _ & Hg); [done | | by eauto | by eauto].
  intros g d v Hg Hlen [Hd _] Hv i u Hi.
  destruct (decide (i = Z.to_nat d)) as [->|Hne].
  - rewrite list_lookup_insert_eq in Hi by lia. left. congruence.
  - rewrite list_lookup_insert_ne in Hi by done. eauto.
Qed.

End Spread.

(** ** The claims about initialisation and propagation *)

Section Claims.
Context {R : Type} `{RandSource R}.
Implicit Types flame : Flame R.

Lemma cell_flat flame y x :
  cell flame y x = index (grid flame) (y * width flame + x).
Proof. reflexivity. Qed.

(** [SetDimensions] replaces the grid by the one [Init] builds for the new
    dimensions; nothing of the old grid is read. *)
Lemma SetDimensions_flat flame w h :
  dims_ok w h → 0 < h ∨ w = 0 →
  ∃ g, SetDimensions flame (mkDimensions w h)
       = Some (mkFlame w h g (buffer flame) (renders flame) (rand flame))
     ∧ Z.of_nat (length g) = w * h
     ∧ ∀ i, 0 ≤ i < w * h →
         g !! Z.to_nat i = Some (if (h - 1) * w <=? i then 35 else 0).
Proof.
  intros Hd Hh. unfold SetDimensions; simpl.
  apply (Init_cells (mkFlame w h (grid flame) (buffer flame)
                       (renders flame) (rand flame))); done.
Qed.

(** A grid whose cells are all 0 or 35 is a grid of intensities. *)
Lemma zero_or_max_in_range (g : list Z) (n b : Z) :
  Z.of_nat (length g) = n →
  (∀ i, 0 ≤ i < n → g !! Z.to_nat i = Some (if b <=? i then 35 else 0)) →
  grid_in_range g.
Proof.
  intros Hlen Hcells. apply Forall_lookup_2. intros i v Hi.
  pose proof (lookup_lt_Some _ _ _ Hi) as Hlt.
  specialize (Hcells (Z.of_nat i) ltac:(lia)).
  rewrite Nat2Z.id, Hi in Hcells. injection Hcells as ->.
  unfold intensity. compare_cases.
Qed.

(** C5.  [SetDimensions] with a positive height, on any flame whatever its
    earlier grid, yields a grid of [w * h] cells in which every cell of the
    last row is 35 and every other cell is 0. *)
Theorem SetDimensions_bottom_row flame w h :
  dims_ok w h → 0 < h →
  ∃ flame', SetDimensions flame (mkDimensions w h) = Some flame'
    ∧ width flame' = w ∧ height flame' = h
    ∧ Z.of_nat (length (grid flame')) = w * h
    ∧ ∀ y x, 0 ≤ y < h → 0 ≤ x < w →
        cell flame' y x = Some (if y =? h - 1 then 35 else 0).
Proof.
  intros Hd Hh.
  destruct (SetDimensions_flat flame w h Hd) as (g & -> & Hlen & Hcells);
    [by left|].
  eexists. split; [done|]. simpl. do 3 (split; [done|]).
  intros y x Hy Hx. rewrite cell_flat; simpl.
  destruct (row_bounds w h y Hd) as [Hp1 Hp2]; [lia|].
  unfold index. rewrite in_bounds_true by lia.
  rewrite Hcells by lia. f_equal.
  destruct (Z.eqb_spec y (h - 1)) as [->|Hne].
  - compare_cases.
  - assert ((y + 1) * w ≤ (h - 1) * w) by nia. compare_cases.
Qed.

(** C2.  On a well-formed flame whose cells are intensities, [Spread] does
    not panic and computes exactly the specified step [Propagate]: same
    grid, same generator state, everything else untouched. *)
Theorem Spread_is_Propagate flame :
  flame_wf flame → grid_in_range (grid flame) →
  Spread flame = Some (Propagate flame).
Proof.
  destruct flame as [w h g0 buf n r0]. unfold flame_wf; simpl.
  intros [Hd Hlen] Hg.
  pose proof int_constants as (Hmin & Ha & Hmax).
  assert (int_sub h 1 = h - 1) as Hh1.
  { destruct Hd as (_ & Hh & _). int_plain. done. }
  unfold Spread, Propagate; simpl. rewrite Hh1.
  pose (I := λ st : list Z * R,
          Z.of_nat (length st.1) = w * h ∧ grid_in_range st.1).
  destruct (for_each_foldl (spread_row w h) (propagate_row w h) I
              (downfrom (h - 1)) (g0, r0)) as [-> _]; [done | |].
  - intros y st Hy HI. apply elem_of_downfrom in Hy.
    apply for_each_foldl; [done|].
    intros x [g r] Hx [Hl Hr]. apply elem_of_upto in Hx. simpl in Hl, Hr.
    destruct (spread_cell_propagate w h y x g r) as (-> & ? & ?);
      [done | lia | done..|].
    done.
  - simpl. by destruct (foldl _ _ _).
Qed.

(** C3.  The clamp invariant: on a well-formed flame whose cells are
    intensities, any number of calls of [Spread] run without panic and
    leave every cell an intensity. *)
Theorem Spread_n_in_range n flame :
  flame_wf flame → grid_in_range (grid flame) →
  ∃ flame', Spread_n n flame = Some flame'
    ∧ flame_wf flame' ∧ grid_in_range (grid flame').
Proof.
  intros Hwf Hg.
  destruct (Spread_n_invariant grid_in_range n flame)
    as (g & r & -> & Hlen & Hg'); [done | | done |].
  - intros g d v Hgr _ _ Hv. by apply Forall_insert.
  - eexists. split; [done|]. split; [|done]. split; [apply Hwf | done].
Qed.

(** C9.  [Spread] reads nothing but the dimensions, the grid and the
    generator: two flames that agree on these get the same grid and the same
    generator state (or both panic). *)
Theorem Spread_deterministic flame1 flame2 :
  width flame1 = width flame2 → height flame1 = height flame2 →
  grid flame1 = grid flame2 → rand flame1 = rand flame2 →
  (λ f, (grid f, rand f)) <$> Spread flame1
  = (λ f, (grid f, rand f)) <$> Spread flame2.
Proof.
  destruct flame1 as [w1 h1 g1 b1 n1 r1], flame2 as [w2 h2 g2 b2 n2 r2].
  simpl. intros -> -> -> ->. unfold Spread; simpl.
  by destruct (for_each _ _ _) as [[g r]|].
Qed.

(** C10.  [Spread] changes only the grid and the generator. *)
Theorem Spread_frame flame flame' :
  Spread flame = Some flame' →
  width flame' = width flame ∧ height flame' = height flame
  ∧ buffer flame' = buffer flame ∧ renders flame' = renders flame.
Proof.
  unfold Spread. destruct (for_each _ _ _) as [[g r]|]; simpl; [|done].
  by intros [= <-].
Qed.

(** C1, as the code has it.  After [SetDimensions] with a positive height
    every cell of the last row is 35.  Whatever number of calls of [Spread]
    follows, every cell of the last row is still an intensity, and those in
    column 3 and beyond are still 35: [Spread] writes at flat indices up to
    [(h - 1) * w + 2] only, which includes the first three cells of the last
    row. *)
Theorem bottom_row_after_Spread flame w h n :
  dims_ok w h → 0 < h →
  ∃ flame1 flame2,
    SetDimensions flame (mkDimensions w h) = Some flame1
    ∧ (∀ x, 0 ≤ x < w → cell flame1 (h - 1) x = Some 35)
    ∧ Spread_n n flame1 = Some flame2
    ∧ (∀ x, 0 ≤ x < w →
         ∃ v, cell flame2 (h - 1) x = Some v ∧ intensity v
              ∧ (if 3 <=? x then v = 35 else True)).
Proof.
  intros Hd Hh.
  destruct (SetDimensions_flat flame w h Hd) as (g1 & Hset & Hlen & Hcells);
    [by left|].
  set (f1 := mkFlame w h g1 (buffer flame) (renders flame) (rand flame)) in *.
  destruct (row_bounds w h (h - 1) Hd) as [Hb1 Hb2]; [lia|].
  destruct (Spread_n_invariant
    (λ g, grid_in_range g
          ∧ ∀ i, (h - 1) * w + 3 ≤ i < w * h → g !! Z.to_nat i = Some 35)
    n f1) as (g & r & Hn & Hlen' & Hg & Hkeep).
  - by split.
  - simpl. intros g d v [Hg Hkeep] _ [Hd1 Hd2] Hv.
    split; [by apply Forall_insert|].
    intros i Hi. rewrite list_lookup_insert_ne by lia. by apply Hkeep.
  - simpl. split; [by eapply zero_or_max_in_range|].
    intros i Hi. rewrite Hcells by lia. f_equal. compare_cases.
  - simpl in Hn, Hlen'. exists f1. eexists. split; [done|]. split.
    { intros x Hx. rewrite cell_flat. simpl. unfold index.
      rewrite in_bounds_true by lia. rewrite Hcells by lia.
      f_equal. compare_cases. }
    split; [exact Hn|].
    intros x Hx. rewrite cell_flat. simpl.
    rewrite index_in by lia.
    eexists. split; [done|]. split.
    + eapply Forall_lookup_1; [exact Hg|].
      apply list_lookup_lookup_total_lt. lia.
    + destruct (Z.leb_spec 3 x); [|done].
      apply (inj Some). rewrite <- list_lookup_lookup_total_lt by lia.
      apply Hkeep. lia.
Qed.

End Claims.

(** ** The terminal *)

Lemma string_app_assoc (s1 s2 s3 : string) :
  ((s1 ++ s2) ++ s3 = s1 ++ (s2 ++ s3))%string.
Proof. induction s1 as [|c s1 IH]; simpl; [done | by rewrite IH]. Qed.

Lemma string_app_nil_r (s : string) : (s ++ "")%string = s.
Proof. induction s as [|c s IH]; simpl; [done | by rewrite IH]. Qed.

Lemma term_run_app t (s1 s2 : string) :
  term_run t (s1 ++ s2) = term_run (term_run t s1) s2.
Proof. revert t. induction s1 as [|c s1 IH]; intros t; simpl; [done | apply IH]. Qed.

Lemma byte_of_digit d : 0 ≤ d ≤ 9 → byte_of (digit d) = 48 + d.
Proof.
  intros Hd. unfold byte_of, digit.
  rewrite nat_ascii_embedding by lia. lia.
Qed.

Lemma term_step_digit ps cur f b cs d :
  0 ≤ d ≤ 9 →
  term_step (mkTerminal (Csi ps cur) f b cs) (digit d)
  = mkTerminal (Csi ps (10 * cur + d)) f b cs.
Proof.
  intros Hd. unfold term_step. simpl mode. cbv zeta.
  rewrite byte_of_digit by done.
  destruct (Z.leb_spec 48 (48 + d)); [|lia].
  destruct (Z.leb_spec (48 + d) 57); [|lia].
  simpl. do 2 f_equal. lia.
Qed.

Local Arguments fmt_d : simpl never.
Local Arguments digit : simpl never.

(** The terminal reads the digits [fmt_d] prints back as the number. *)
Lemma term_run_fmt_d n ps f b cs (rest : string) :
  0 ≤ n < 256 →
  term_run (mkTerminal (Csi ps 0) f b cs) (fmt_d n ++ rest)
  = term_run (mkTerminal (Csi ps n) f b cs) rest.
Proof.
  intros Hn. unfold fmt_d.
  destruct (Z.ltb_spec n 10); [|destruct (Z.ltb_spec n 100)]; simpl.
  - rewrite term_step_digit by lia. do 2 f_equal; lia.
  - rewrite !term_step_digit by (Z.div_mod_to_equations; lia).
    do 3 f_equal; Z.div_mod_to_equations; lia.
  - rewrite !term_step_digit by (Z.div_mod_to_equations; lia).
    do 3 f_equal; Z.div_mod_to_equations; lia.
Qed.

Lemma term_run_cons t c (s : string) :
  term_run t (String c s) = term_run (term_step t c) s.
Proof. reflexivity. Qed.

Lemma term_step_semicolon ps cur f b cs :
  term_step (mkTerminal (Csi ps cur) f b cs) ";"
  = mkTerminal (Csi (ps ++ [cur]) 0) f b cs.
Proof. reflexivity. Qed.

Lemma term_step_m ps cur f b cs :
  term_step (mkTerminal (Csi ps cur) f b cs) "m"
  = select_graphic (ps ++ [cur]) (mkTerminal (Csi ps cur) f b cs).
Proof. reflexivity. Qed.

(** After [ESC [ 38 ; 2 ;] the terminal waits for the first component. *)
Lemma term_run_foreground_intro f b cs :
  term_run (mkTerminal Ground f b cs) (String ESC "[38;2;")
  = mkTerminal (Csi [38; 2] 0) f b cs.
Proof. reflexivity. Qed.

Lemma term_run_background_intro f b cs :
  term_run (mkTerminal Ground f b cs) (String ESC "[48;2;")
  = mkTerminal (Csi [48; 2] 0) f b cs.
Proof. reflexivity. Qed.

(** The rest of a colour sequence: three numbers and the final [m]. *)
Lemma term_run_components k r g bl f b cs :
  0 ≤ r < 256 → 0 ≤ g < 256 → 0 ≤ bl < 256 →
  term_run (mkTerminal (Csi [k; 2] 0) f b cs)
    (fmt_d r ++ ";" ++ fmt_d g ++ ";" ++ fmt_d bl ++ "m")
  = select_graphic [k; 2; r; g; bl] (mkTerminal Ground f b cs).
Proof.
  intros Hr Hg Hb.
  rewrite term_run_fmt_d by done.
  change (";" ++ fmt_d g ++ ";" ++ fmt_d bl ++ "m")%string
    with (String ";" (fmt_d g ++ ";" ++ fmt_d bl ++ "m")).
  rewrite term_run_cons, term_step_semicolon.
  rewrite term_run_fmt_d by done.
  change (";" ++ fmt_d bl ++ "m")%string with (String ";" (fmt_d bl ++ "m")).
  rewrite term_run_cons, term_step_semicolon.
  rewrite term_run_fmt_d by done.
  rewrite term_run_cons, term_step_m. reflexivity.
Qed.

Lemma term_run_set_foreground c f b cs :
  byte_color c →
  term_run (mkTerminal Ground f b cs) (set_foreground c)
  = mkTerminal Ground (Some c) b cs.
Proof.
  destruct c as [[r g] bl]. intros (Hr & Hg & Hb).
  unfold set_foreground.
  change (String ESC ("[38;2;" ++ fmt_d r ++ ";" ++ fmt_d g ++ ";"
                      ++ fmt_d bl ++ "m"))
    with (String ESC "[38;2;"
          ++ (fmt_d r ++ ";" ++ fmt_d g ++ ";" ++ fmt_d bl ++ "m"))%string.
  rewrite term_run_app, term_run_foreground_intro.
  by rewrite term_run_components.
Qed.

Lemma term_run_set_background c f b cs :
  byte_color c →
  term_run (mkTerminal Ground f b cs) (set_background c)
  = mkTerminal Ground f (Some c) cs.
Proof.
  destruct c as [[r g] bl]. intros (Hr & Hg & Hb).
  unfold set_background.
  change (String ESC ("[48;2;" ++ fmt_d r ++ ";" ++ fmt_d g ++ ";"
                      ++ fmt_d bl ++ "m"))
    with (String ESC "[48;2;"
          ++ (fmt_d r ++ ";" ++ fmt_d g ++ ";" ++ fmt_d bl ++ "m"))%string.
  rewrite term_run_app, term_run_background_intro.
  by rewrite term_run_components.
Qed.

Lemma term_run_glyph f b cs :
  term_run (mkTerminal Ground f b cs) glyph
  = mkTerminal Ground f b (cs ++ [(f, b)]).
Proof. reflexivity. Qed.

(** Whatever the terminal was doing, it is in the ground state once it has
    read the last byte of the cursor-home sequence. *)
Lemma term_run_cursor_home t (s : string) :
  mode (term_run t (s ++ cursor_home)) = Ground.
Proof.
  rewrite term_run_app. generalize (term_run t s) as t'. intros t'.
  unfold cursor_home.
  change (String ESC "[0;0H") with (String ESC "[0;0" ++ "H")%string.
  rewrite term_run_app. generalize (term_run t' (String ESC "[0;0")) as u.
  intros [[| |ps cur|n] f b cs]; simpl; try done.
Qed.

(** ** Rendering *)

(** Two loops that step in lockstep: related states stay related, and one
    panics exactly when the other does. *)
Lemma for_each_sim {A S1 S2} (body1 : A → S1 → option S1)
    (body2 : A → S2 → option S2) (Rel : S1 → S2 → Prop) xs s1 s2 :
  Rel s1 s2 →
  (∀ x s1 s2, x ∈ xs → Rel s1 s2 →
     option_Forall2 Rel (body1 x s1) (body2 x s2)) →
  option_Forall2 Rel (for_each body1 xs s1) (for_each body2 xs s2).
Proof.
  revert s1 s2. induction xs as [|x xs IH]; intros s1 s2 Hs Hbody; simpl.
  - by constructor.
  - destruct (Hbody x s1 s2) as [s1' s2' Hs'|]; [left | done | | constructor].
    simpl. apply IH; [done|]. intros x' ? ? Hx'. apply Hbody. by right.
Qed.

Lemma mapColor_is_Some v : ∃ c, mapColor v = Some c.
Proof.
  unfold mapColor.
  destruct ((v <? 0) || (Z.of_nat (length cmap) <=? v)) eqn:E; [by eauto|].
  apply orb_false_elim in E as [E1 E2].
  apply Z.ltb_ge in E1. apply Z.leb_gt in E2.
  rewrite index_in by lia. eauto.
Qed.

(** Every colour [mapColor] returns is a triple of bytes; for an intensity
    it is not the zero colour. *)
Lemma mapColor_bytes v c :
  mapColor v = Some c →
  byte_color c ∧ (intensity v → color_eqb c (0, 0, 0) = false).
Proof.
  intros Hc. destruct (decide (intensity v)) as [Hv|Hv].
  - destruct (mapColor_intensity v Hv) as (c' & Hc' & Hne & Hb).
    rewrite Hc in Hc'. injection Hc' as <-. done.
  - split; [|done]. unfold intensity in Hv.
    unfold mapColor in Hc. rewrite cmap_length in Hc.
    destruct (Z.ltb_spec v 0), (Z.leb_spec (Z.of_nat 36) v);
      simpl in Hc; try lia; injection Hc as <-; simpl; lia.
Qed.

Lemma cached_foreground t (ok : Prop) p c f b cs :
  term_run t (out p) = mkTerminal Ground f b cs →
  f = Some (prevfg p) ∨ (ok ∧ color_eqb (prevfg p) (0, 0, 0) = true) →
  (ok → color_eqb c (0, 0, 0) = false) → byte_color c →
  let p' := if negb (color_eqb c (prevfg p))
            then mkPen (out p ++ set_foreground c) (prevbg p) c else p in
  term_run t (out p') = mkTerminal Ground (Some c) b cs
  ∧ prevfg p' = c ∧ prevbg p' = prevbg p.
Proof.
  intros Ht Hcache Hc Hbyte. cbv zeta.
  destruct (color_eqb c (prevfg p)) eqn:E; simpl.
  - apply color_eqb_eq in E. subst c.
    destruct Hcache as [->|[Hok Hz]]; [done|].
    rewrite (Hc Hok) in Hz. discriminate.
  - rewrite term_run_app, Ht. by rewrite term_run_set_foreground.
Qed.

Lemma cached_background t (ok : Prop) p c f b cs :
  term_run t (out p) = mkTerminal Ground f b cs →
  b = Some (prevbg p) ∨ (ok ∧ color_eqb (prevbg p) (0, 0, 0) = true) →
  (ok → color_eqb c (0, 0, 0) = false) → byte_color c →
  let p' := if negb (color_eqb c (prevbg p))
            then mkPen (out p ++ set_background c) c (prevfg p) else p in
  term_run t (out p') = mkTerminal Ground f (Some c) cs
  ∧ prevbg p' = c ∧ prevfg p' = prevfg p.
Proof.
  intros Ht Hcache Hc Hbyte. cbv zeta.
  destruct (color_eqb c (prevbg p)) eqn:E; simpl.
  - apply color_eqb_eq in E. subst c.
    destruct Hcache as [->|[Hok Hz]]; [done|].
    rewrite (Hc Hok) in Hz. discriminate.
  - rewrite term_run_app, Ht. by rewrite term_run_set_background.
Qed.

Lemma index_intensity g i v :
  grid_in_range g → index g i = Some v → intensity v.
Proof.
  intros Hg Hi. apply index_Some in Hi as [_ Hi].
  by eapply Forall_lookup_1.
Qed.

(** One cell: the cached writer and the unconditional one paint the same
    colours, or panic together. *)
Lemma render_cell_sim t w g y x p buf :
  same_picture t g p buf →
  option_Forall2 (same_picture t g)
    (render_cell w g y x p) (render_cell_always w g y x buf).
Proof.
  intros (Hm1 & Hm2 & Hpaint & Hfg & Hbg).
  unfold render_cell, render_cell_always.
  destruct (index g (int_add (int_mul y w) x)) as [v1|] eqn:E1; simpl;
    [|constructor].
  destruct (mapColor_is_Some v1) as [c1 Hmap1]. rewrite Hmap1. simpl.
  destruct (mapColor_bytes v1 c1 Hmap1) as [Hb1 Hc1].
  destruct (index g (int_add (int_mul (int_add y 1) w) x)) as [v2|] eqn:E2;
    simpl; [|constructor].
  destruct (mapColor_is_Some v2) as [c2 Hmap2]. rewrite Hmap2. simpl.
  destruct (mapColor_bytes v2 c2 Hmap2) as [Hb2 Hc2].
  constructor.
  destruct (term_run t (out p)) as [m1 f1 b1 cs1] eqn:Ht1.
  destruct (term_run t buf) as [m2 f2 b2 cs2] eqn:Ht2.
  simpl in *. subst m1 m2 cs2.
  destruct (cached_foreground t (grid_in_range g) p c1 f1 b1 cs1 Ht1 Hfg)
    as (Hs1 & Hpf1 & Hpb1); [by eauto using index_intensity | done |].
  set (p1 := if negb (color_eqb c1 (prevfg p))
             then mkPen (out p ++ set_foreground c1) (prevbg p) c1 else p) in *.
  rewrite <- Hpb1 in Hbg.
  destruct (cached_background t (grid_in_range g) p1 c2 (Some c1) b1 cs1 Hs1 Hbg)
    as (Hs2 & Hpb2 & Hpf2); [by eauto using index_intensity | done |].
  set (p2 := if negb (color_eqb c2 (prevbg p1))
             then mkPen (out p1 ++ set_background c2) c2 (prevfg p1) else p1)
    in *.
  unfold same_picture; simpl.
  rewrite !term_run_app, Hs2, Ht2.
  rewrite term_run_set_foreground, term_run_set_background by done.
  rewrite !term_run_glyph. simpl.
  rewrite Hpb2, Hpf2, Hpf1. auto 10.
Qed.

(** The cursor-home sequence changes no colour, whatever the terminal was
    doing when it arrived. *)
Lemma term_run_cursor_home_colors t :
  fg (term_run t cursor_home) = fg t ∧ bg (term_run t cursor_home) = bg t.
Proof. by destruct t as [[| |ps cur|n] f b cs]. Qed.

(** C7.  The cells that the output of [Render] paints have exactly the
    colours of the cells painted by the output of the renderer that sets
    both colours for every cell, and the two panic on the same flames.  This
    holds on every grid of intensities, whatever the terminal showed before
    and whatever is left in the buffer; and it holds on every grid whatever
    it contains when the buffer is empty and the terminal starts with the
    zero colours the cache starts with. *)
Theorem cache_keeps_colors {R} (flame : Flame R) (t : terminal) :
  grid_in_range (grid flame)
  ∨ (buffer flame = EmptyString
     ∧ fg t = Some (0, 0, 0) ∧ bg t = Some (0, 0, 0)) →
  (λ fo, decode t fo.2) <$> Render flame = decode t <$> RenderAlways flame.
Proof.
  intros Hstart. unfold Render, RenderAlways.
  set (p0 := mkPen (buffer flame ++ cursor_home) (0, 0, 0) (0, 0, 0)).
  set (b0 := (buffer flame ++ cursor_home)%string).
  assert (same_picture t (grid flame) p0 b0) as H0.
  { unfold same_picture, p0, b0. cbn [out prevfg prevbg].
    rewrite term_run_cursor_home. do 3 (split; [done|]).
    destruct Hstart as [Hg|(-> & Hf & Hb)]; [by auto|].
    change ("" ++ cursor_home)%string with cursor_home.
    destruct (term_run_cursor_home_colors t) as [-> ->]. auto. }
  assert (option_Forall2 (same_picture t (grid flame))
            (for_each (render_row (width flame) (grid flame))
               (evens_below (height flame)) p0)
            (for_each
               (λ y, for_each (render_cell_always (width flame) (grid flame) y)
                       (upto (width flame)))
               (evens_below (height flame)) b0)) as Hsim.
  { apply for_each_sim; [done|].
    intros y p buf _ Hrel. apply for_each_sim; [done|].
    intros x p' buf' _ Hrel'. by apply render_cell_sim. }
  inversion Hsim as [p buf (_ & _ & Hpaint & _) Hp Hb|Hp Hb]; simpl; [|done].
  unfold decode. by rewrite Hpaint.
Qed.

Lemma extends_refl s : extends s s.
Proof. exists EmptyString. by rewrite string_app_nil_r. Qed.

Lemma extends_app pre s more : extends pre s → extends pre (s ++ more).
Proof. intros [m ->]. exists (m ++ more)%string. apply string_app_assoc. Qed.

Lemma extends_trans a b c : extends a b → extends b c → extends a c.
Proof. intros Hab [m ->]. by apply extends_app. Qed.

(** A cell whose two grid cells exist is rendered without panic, and the
    buffer only grows. *)
Lemma render_cell_total w h g y x p :
  dims_ok w h → Z.of_nat (length g) = w * h →
  0 ≤ y → y + 1 < h → 0 ≤ x < w →
  ∃ p', render_cell w g y x p = Some p' ∧ extends (out p) (out p').
Proof.
  intros Hd Hlen Hy0 Hy1 Hx.
  pose proof (dims_ok_product w h Hd) as Hwh.
  destruct (row_bounds w h y Hd) as [Hp1 Hp2]; [lia|].
  destruct (row_bounds w h (y + 1) Hd) as [Hq1 Hq2]; [lia|].
  pose proof int_constants as (Hmin & Ha & Hmax).
  destruct Hd as (Hw & Hh & _).
  unfold render_cell. int_plain.
  rewrite (index_in g (y * w + x)) by lia. simpl.
  destruct (mapColor_is_Some (g !!! Z.to_nat (y * w + x))) as [c1 ->]. simpl.
  rewrite (index_in _ ((y + 1) * w + x)) by lia. simpl.
  destruct (mapColor_is_Some (g !!! Z.to_nat ((y + 1) * w + x))) as [c2 ->].
  simpl. eexists. split; [done|]. simpl.
  apply extends_app.
  destruct (negb (color_eqb c1 (prevfg p)));
    destruct (negb (color_eqb c2 _)); simpl;
    repeat apply extends_app; apply extends_refl.
Qed.

Lemma render_cells_total w h g y xs p :
  dims_ok w h → Z.of_nat (length g) = w * h →
  0 ≤ y → y + 1 < h → (∀ x, x ∈ xs → 0 ≤ x < w) →
  ∃ p', for_each (render_cell w g y) xs p = Some p' ∧ extends (out p) (out p').
Proof.
  intros Hd Hlen Hy0 Hy1 Hxs.
  apply (for_each_invariant _ (λ p', extends (out p) (out p')));
    [apply extends_refl|].
  intros x p1 Hx Hp1.
  destruct (render_cell_total w h g y x p1) as (p2 & -> & Hp2); [by auto..|].
  eexists. split; [done|]. by eapply extends_trans.
Qed.

Lemma render_rows_total w h g ys p :
  dims_ok w h → Z.of_nat (length g) = w * h →
  (∀ y, y ∈ ys → 0 ≤ y ∧ y + 1 < h) →
  ∃ p', for_each (render_row w g) ys p = Some p' ∧ extends (out p) (out p').
Proof.
  intros Hd Hlen Hys.
  apply (for_each_invariant _ (λ p', extends (out p) (out p')));
    [apply extends_refl|].
  intros y p1 Hy Hp1. destruct (Hys y Hy) as [Hy0 Hy1].
  destruct (render_cells_total w h g y (upto w) p1) as (p2 & Hr & Hp2);
    [done..| |].
  { intros x. apply elem_of_upto. }
  unfold render_row. rewrite Hr. eexists. split; [done|].
  by eapply extends_trans.
Qed.

(** Below an even height, an even row has a row under it. *)
Lemma evens_below_even h y :
  Z.even h = true → y ∈ evens_below h → 0 ≤ y ∧ y + 1 < h.
Proof.
  intros Hh Hy. apply elem_of_evens_below in Hy as [Hy Hev].
  apply Z.even_spec in Hh as [m ->]. apply Z.even_spec in Hev as [k ->]. lia.
Qed.

(** [Render] on a well-formed flame of even height does not panic: it
    returns the flame with an empty buffer and one more render counted, and
    writes what the buffer held, the cursor-home sequence, and the cells. *)
Lemma Render_total {R} (flame : Flame R) :
  flame_wf flame → Z.even (height flame) = true →
  ∃ o, Render flame
       = Some (mkFlame (width flame) (height flame) (grid flame) EmptyString
                 (int_add (renders flame) 1) (rand flame), o)
     ∧ extends (buffer flame ++ cursor_home) o.
Proof.
  intros [Hd Hlen] Hev. unfold Render.
  edestruct (render_rows_total (width flame) (height flame) (grid flame)
               (evens_below (height flame))) as (p & -> & Hp); [done..| |].
  { intros y. by apply evens_below_even. }
  simpl. eauto.
Qed.

Lemma evens_below_cons h :
  0 < h → ∃ ys, evens_below h = 0 :: ys ∧ ∀ y, y ∈ ys → y ∈ evens_below h.
Proof.
  intros Hh. exists ((λ k, 2 * k) <$> seqZ 1 ((h + 1) / 2 - 1)). split.
  - unfold evens_below.
    rewrite seqZ_cons by (Z.div_mod_to_equations; lia).
    rewrite fmap_cons. reflexivity.
  - intros y Hy. apply elem_of_evens_below.
    apply list_elem_of_fmap in Hy as (k & -> & Hk).
    apply elem_of_seqZ in Hk. split; [|by rewrite Z.even_mul].
    Z.div_mod_to_equations. lia.
Qed.

Lemma upto_cons w :
  0 < w → ∃ xs, upto w = 0 :: xs ∧ ∀ x, x ∈ xs → 0 ≤ x < w.
Proof.
  intros Hw. unfold upto. rewrite seqZ_cons by done.
  eexists. split; [done|]. intros x Hx. apply elem_of_seqZ in Hx. lia.
Qed.

(** C8, as the code has it.  For a well-formed flame of positive width and
    positive even height whose cells are intensities, the colours of the
    first cell differ from the zero colours the cache starts with, and the
    output of [Render] consists of what the buffer held, the cursor-home
    sequence, the foreground sequence for grid cell (0, 0), the background
    sequence for grid cell (1, 0), the glyph, and the rest of the frame. *)
Theorem first_cell_colors_written {R} (flame : Flame R) :
  flame_wf flame → grid_in_range (grid flame) →
  0 < width flame → 0 < height flame → Z.even (height flame) = true →
  ∃ v_top v_bottom c_fg c_bg flame' rest,
    cell flame 0 0 = Some v_top ∧ mapColor v_top = Some c_fg
    ∧ cell flame 1 0 = Some v_bottom ∧ mapColor v_bottom = Some c_bg
    ∧ c_fg ≠ (0, 0, 0) ∧ c_bg ≠ (0, 0, 0)
    ∧ Render flame
      = Some (flame',
              (buffer flame ++ cursor_home ++ set_foreground c_fg
               ++ set_background c_bg ++ glyph ++ rest)%string).
Proof.
  intros [Hd Hlen] Hg Hw Hh Hev.
  destruct flame as [w h g buf n r]; simpl in *.
  assert (2 ≤ h) as Hh2.
  { apply Z.even_spec in Hev as [m ->]. lia. }
  pose proof (dims_ok_product w h Hd) as Hwh.
  destruct (row_bounds w h 0 Hd) as [Hp1 Hp2]; [lia|].
  destruct (row_bounds w h 1 Hd) as [Hq1 Hq2]; [lia|].
  pose proof int_constants as (Hmin & Ha & Hmax).
  pose proof Hd as (Hw' & Hh' & _).
  destruct (evens_below_cons h Hh) as (ys & Hys & Hys').
  destruct (upto_cons w Hw) as (xs & Hxs & Hxs').
  set (v1 := g !!! Z.to_nat (0 * w + 0)).
  set (v2 := g !!! Z.to_nat (1 * w + 0)).
  assert (index g (0 * w + 0) = Some v1) as Hi1 by (apply index_in; lia).
  assert (index g (1 * w + 0) = Some v2) as Hi2 by (apply index_in; lia).
  destruct (mapColor_intensity v1) as (c1 & Hc1 & Hne1 & _);
    [by eapply index_intensity|].
  destruct (mapColor_intensity v2) as (c2 & Hc2 & Hne2 & _);
    [by eapply index_intensity|].
  set (p0 := mkPen (buf ++ cursor_home) (0, 0, 0) (0, 0, 0)).
  set (p1 := mkPen (((buf ++ cursor_home) ++ set_foreground c1)
                     ++ set_background c2 ++ glyph) c2 c1).
  assert (render_cell w g 0 0 p0 = Some p1) as Hfirst.
  { unfold render_cell. int_plain. rewrite Hi1. simpl. rewrite Hc1. simpl.
    rewrite Hne1. simpl. replace ((0 + 1) * w + 0) with (1 * w + 0) by lia.
    rewrite Hi2. simpl. rewrite Hc2. simpl. rewrite Hne2. simpl.
    unfold p1. by rewrite <- !string_app_assoc. }
  destruct (render_cells_total w h g 0 xs p1) as (p2 & Hrow & Hext2);
    [done | done | lia | lia | done |].
  destruct (render_rows_total w h g ys p2) as (p3 & Hrows & Hext3);
    [done | done | |].
  { intros y Hy. apply (evens_below_even h); auto. }
  destruct (extends_trans _ _ _ Hext2 Hext3) as [rest Hrest].
  assert (render_row w g 0 p0 = Some p2) as Hrow0.
  { unfold render_row. rewrite Hxs, for_each_cons, Hfirst. exact Hrow. }
  assert (for_each (render_row w g) (evens_below h) p0 = Some p3) as Hall.
  { rewrite Hys, for_each_cons, Hrow0. exact Hrows. }
  exists v1, v2, c1, c2. eexists. exists rest.
  do 4 (split; [assumption|]).
  split. { intros ->. by rewrite color_eqb_refl in Hne1. }
  split. { intros ->. by rewrite color_eqb_refl in Hne2. }
  unfold Render. cbn [width height grid buffer renders rand]. fold p0.
  rewrite Hall. cbn [mbind option_bind]. rewrite Hrest. unfold p1. cbn [out].
  do 2 f_equal. by rewrite !string_app_assoc.
Qed.

(** C4, as the code has it.  From a well-formed flame: [SetDimensions] to
    dimensions a grid can be allocated for, with a positive height or no
    column, does not panic and yields a well-formed flame; [Spread] does not
    panic and yields a well-formed flame; [Render] does not panic when the
    height is even.  And [SetDimensions] to 0 by 0, then [Spread], then
    [Render] run without panic; the grid is empty and the output is what the
    buffer held followed by the cursor-home sequence alone. *)
Theorem operations_total {R} `{RandSource R} (flame : Flame R) (w h : Z) :
  flame_wf flame → dims_ok w h → 0 < h ∨ w = 0 →
  (∃ flame', SetDimensions flame (mkDimensions w h) = Some flame'
     ∧ flame_wf flame' ∧ width flame' = w ∧ height flame' = h)
  ∧ (∃ flame', Spread flame = Some flame'
       ∧ flame_wf flame'
       ∧ width flame' = width flame ∧ height flame' = height flame)
  ∧ (if Z.even (height flame)
     then ∃ flame' o, Render flame = Some (flame', o)
            ∧ flame_wf flame' ∧ grid flame' = grid flame
            ∧ width flame' = width flame ∧ height flame' = height flame
     else True)
  ∧ (∃ f1 f2 f3,
       SetDimensions flame (mkDimensions 0 0) = Some f1
       ∧ Spread f1 = Some f2
       ∧ Render f2 = Some (f3, (buffer flame ++ cursor_home)%string)
       ∧ grid f3 = []).
Proof.
  intros Hwf Hd Hh. split; [|split; [|split]].
  - unfold SetDimensions.
    edestruct (Init_cells (mkFlame w h (grid flame) (buffer flame)
                            (renders flame) (rand flame)))
      as (g & Hg & Hlen & _); [done | done |].
    simpl in *. rewrite Hg. eexists. split; [done|]. simpl.
    split; [split; [exact Hd | exact Hlen] | split; reflexivity].
  - destruct (Spread_invariant (λ _, True) flame) as (g & r & -> & Hlen & _);
      [done..|].
    eexists. split; [done|]. simpl.
    split; [split; [apply Hwf | exact Hlen] | split; reflexivity].
  - destruct (Z.even (height flame)) eqn:Hev; [|done].
    destruct (Render_total flame Hwf Hev) as (o & -> & _).
    do 2 eexists. split; [done|]. simpl.
    split; [exact Hwf | repeat split].
  - exists (mkFlame 0 0 [] (buffer flame) (renders flame) (rand flame)).
    exists (mkFlame 0 0 [] (buffer flame) (renders flame) (rand flame)).
    eexists. repeat split.
Qed.

(** ** Worked instances and counterexamples *)

Lemma dims_ok_4x4 : dims_ok 4 4.
Proof. unfold dims_ok, max_int, max_alloc. lia. Defined.

Lemma flame_4x4_wf : flame_wf flame_4x4.
Proof. split; [exact dims_ok_4x4 | reflexivity]. Defined.

Lemma flame_4x4_in_range : grid_in_range (grid flame_4x4).
Proof. unfold grid_in_range, intensity. simpl. repeat constructor; lia. Defined.

(** C1 fails as stated: on a 4 by 4 grid the first call of [Spread]
    lowers the first cell of the last row from 35 to 31 (the source cell is
    the last cell of that row, the offset +1, the decay 4). *)
Lemma bottom_row_is_overwritten :
  ∃ flame1 flame2,
    SetDimensions (fresh [2; 1; 2; 1; 2; 1; 3; 5]) (mkDimensions 4 4)
    = Some flame1
    ∧ cell flame1 3 0 = Some 35
    ∧ Spread flame1 = Some flame2
    ∧ cell flame2 3 0 = Some 31.
Proof.
  do 2 eexists. split; [vm_compute; reflexivity|].
  split; [vm_compute; reflexivity|].
  split; [vm_compute; reflexivity|].
  vm_compute. reflexivity.
Qed.

Lemma bottom_row_after_Spread_witness :
  dims_ok 4 4 ∧ 0 < 4
  ∧ ∃ flame1 flame2,
      SetDimensions (fresh [2; 1; 2; 1; 2; 1; 3; 5]) (mkDimensions 4 4)
      = Some flame1
      ∧ (∀ x, 0 ≤ x < 4 → cell flame1 (4 - 1) x = Some 35)
      ∧ Spread_n 1 flame1 = Some flame2
      ∧ (∀ x, 0 ≤ x < 4 →
           ∃ v, cell flame2 (4 - 1) x = Some v ∧ intensity v
                ∧ (if 3 <=? x then v = 35 else True)).
Proof.
  split; [exact dims_ok_4x4|]. split; [lia|].
  apply (bottom_row_after_Spread (fresh [2; 1; 2; 1; 2; 1; 3; 5]) 4 4 1);
    [exact dims_ok_4x4 | lia].
Defined.

Lemma Spread_is_Propagate_witness :
  flame_wf flame_4x4 ∧ grid_in_range (grid flame_4x4)
  ∧ Spread flame_4x4 = Some (Propagate flame_4x4).
Proof.
  split; [exact flame_4x4_wf|]. split; [exact flame_4x4_in_range|].
  apply (Spread_is_Propagate flame_4x4);
    [exact flame_4x4_wf | exact flame_4x4_in_range].
Defined.

Lemma Spread_n_in_range_witness :
  flame_wf flame_4x4 ∧ grid_in_range (grid flame_4x4)
  ∧ ∃ flame', Spread_n 3 flame_4x4 = Some flame'
      ∧ flame_wf flame' ∧ grid_in_range (grid flame').
Proof.
  split; [exact flame_4x4_wf|]. split; [exact flame_4x4_in_range|].
  apply (Spread_n_in_range 3 flame_4x4);
    [exact flame_4x4_wf | exact flame_4x4_in_range].
Defined.

(** C4 fails as stated: for width 2 and height 3 [SetDimensions] returns
    and [Render] then panics, reading the row below the last one; and [Init]
    itself panics for width 1 and height 0. *)
Lemma odd_height_Render_panics :
  (∃ flame1,
     SetDimensions (fresh []) (mkDimensions 2 3) = Some flame1
     ∧ Render flame1 = None)
  ∧ Init (newFlame 1 0 ([] : scripted)) = None.
Proof.
  split; [|vm_compute; reflexivity].
  eexists. split; [vm_compute; reflexivity|].
  vm_compute. reflexivity.
Qed.

Lemma operations_total_witness :
  flame_wf flame_4x4 ∧ dims_ok 4 4 ∧ (0 < 4 ∨ 4 = 0)
  ∧ (∃ flame', SetDimensions flame_4x4 (mkDimensions 4 4) = Some flame')
  ∧ (∃ flame', Spread flame_4x4 = Some flame')
  ∧ (∃ flame' o, Render flame_4x4 = Some (flame', o))
  ∧ (∃ f1 f2 f3,
       SetDimensions flame_4x4 (mkDimensions 0 0) = Some f1
       ∧ Spread f1 = Some f2
       ∧ Render f2 = Some (f3, cursor_home)).
Proof.
  split; [exact flame_4x4_wf|]. split; [exact dims_ok_4x4|].
  split; [left; lia|].
  destruct (operations_total flame_4x4 4 4 flame_4x4_wf dims_ok_4x4
              (or_introl eq_refl))
    as ((f' & Hset & _) & (f'' & Hsp & _) & Hr & (f1 & f2 & f3 & H1 & H2 & H3 & _)).
  simpl in Hr. destruct Hr as (f3' & o & Hr & _).
  split; [by eauto|]. split; [by eauto|]. split; [by eauto|].
  exists f1, f2, f3. auto.
Defined.

Lemma SetDimensions_bottom_row_witness :
  dims_ok 4 4 ∧ 0 < 4
  ∧ ∃ flame', SetDimensions flame_4x4 (mkDimensions 4 4) = Some flame'
      ∧ width flame' = 4 ∧ height flame' = 4
      ∧ Z.of_nat (length (grid flame')) = 4 * 4
      ∧ ∀ y x, 0 ≤ y < 4 → 0 ≤ x < 4 →
          cell flame' y x = Some (if y =? 4 - 1 then 35 else 0).
Proof.
  split; [exact dims_ok_4x4|]. split; [lia|].
  apply (SetDimensions_bottom_row flame_4x4 4 4); [exact dims_ok_4x4 | lia].
Defined.

Lemma cache_keeps_colors_witness :
  grid_in_range (grid flame_4x4)
  ∧ (λ fo, decode blank_terminal fo.2) <$> Render flame_4x4
    = decode blank_terminal <$> RenderAlways flame_4x4.
Proof.
  split; [exact flame_4x4_in_range|].
  apply (cache_keeps_colors flame_4x4 blank_terminal).
  left. exact flame_4x4_in_range.
Defined.

(** C8 fails as stated: a 1 by 1 grid holding 35 has positive width and
    height and only intensities, and [Render] panics on it (there is no row
    for the background of the first cell), so nothing is written; on a 1 by
    3 grid [Render] panics at the last row, before anything is copied to the
    output. *)
Lemma single_row_Render_panics :
  (∃ flame1,
     SetDimensions (fresh []) (mkDimensions 1 1) = Some flame1
     ∧ grid flame1 = [35] ∧ 0 < width flame1 ∧ 0 < height flame1
     ∧ Render flame1 = None)
  ∧ (∃ flame3,
       SetDimensions (fresh []) (mkDimensions 1 3) = Some flame3
       ∧ grid flame3 = [0; 0; 35] ∧ 0 < width flame3 ∧ 0 < height flame3
       ∧ Render flame3 = None).
Proof.
  split.
  - eexists. split; [vm_compute; reflexivity|].
    split; [reflexivity|]. split; [reflexivity|]. split; [reflexivity|].
    vm_compute. reflexivity.
  - eexists. split; [vm_compute; reflexivity|].
    split; [reflexivity|]. split; [reflexivity|]. split; [reflexivity|].
    vm_compute. reflexivity.
Qed.

Lemma first_cell_colors_written_witness :
  flame_wf flame_4x4 ∧ grid_in_range (grid flame_4x4)
  ∧ 0 < width flame_4x4 ∧ 0 < height flame_4x4
  ∧ Z.even (height flame_4x4) = true
  ∧ ∃ v_top v_bottom c_fg c_bg flame' rest,
      cell flame_4x4 0 0 = Some v_top ∧ mapColor v_top = Some c_fg
      ∧ cell flame_4x4 1 0 = Some v_bottom ∧ mapColor v_bottom = Some c_bg
      ∧ c_fg ≠ (0, 0, 0) ∧ c_bg ≠ (0, 0, 0)
      ∧ Render flame_4x4
        = Some (flame',
                (buffer flame_4x4 ++ cursor_home ++ set_foreground c_fg
                 ++ set_background c_bg ++ glyph ++ rest)%string).
Proof.
  split; [exact flame_4x4_wf|]. split; [exact flame_4x4_in_range|].
  split; [reflexivity|]. split; [reflexivity|]. split; [reflexivity|].
  apply (first_cell_colors_written flame_4x4 flame_4x4_wf flame_4x4_in_range);
    reflexivity.
Defined.

Lemma Spread_deterministic_witness :
  (λ f, (grid f, rand f)) <$> Spread flame_4x4
  = (λ f, (grid f, rand f))
      <$> Spread (mkFlame 4 4 (grid flame_4x4) "stale" 7 (rand flame_4x4)).
Proof.
  apply (Spread_deterministic flame_4x4
           (mkFlame 4 4 (grid flame_4x4) "stale" 7 (rand flame_4x4)));
    reflexivity.
Defined.

Lemma Spread_frame_witness :
  let flame' :=
    mkFlame 4 4 [1; 1; 0; 0; 35; 1; 0; 0; 35; 35; 35; 0; 31; 35; 35; 35]
      EmptyString 0 ([] : scripted) in
  Spread flame_4x4 = Some flame'
  ∧ width flame' = width flame_4x4 ∧ height flame' = height flame_4x4
  ∧ buffer flame' = buffer flame_4x4 ∧ renders flame' = renders flame_4x4.
Proof.
  intros flame'. split; [vm_compute; reflexivity|].
  apply (Spread_frame flame_4x4 flame'). vm_compute. reflexivity.
Defined.

(** * Further properties of the program *)

(** ** Edges of [Init], [Spread] and [Render] *)

Lemma store_empty {A} (i : Z) (v : A) : store [] i v = None.
Proof. unfold store, in_bounds. simpl. compare_cases. Qed.

Lemma for_each_unchanged {A St} (body : A → St → option St) xs s :
  (∀ x s, x ∈ xs → body x s = Some s) → for_each body xs s = Some s.
Proof.
  induction xs as [|x xs IH]; intros Hbody; simpl; [done|].
  rewrite Hbody by left. simpl. apply IH. intros. apply Hbody. by right.
Qed.

(** A loop that reaches an iteration which panics in every state panics,
    there or earlier. *)
Lemma for_each_panics {A St} (body : A → St → option St) xs x s :
  x ∈ xs → (∀ s, body x s = None) → for_each body xs s = None.
Proof.
  intros Hx Hbody. revert s.
  induction xs as [|x' xs IH]; intros s; [by apply elem_of_nil in Hx|].
  simpl. apply elem_of_cons in Hx as [<-|Hx]; [by rewrite Hbody|].
  destruct (body x' s); simpl; [by apply IH | done].
Qed.

(** X1.  For dimensions a grid can be allocated for, [Init] panics exactly
    when the height is 0 and the width is not: the grid is then empty and
    the first write to the last row misses it. *)
Theorem Init_panics_iff {R} (flame : Flame R) :
  dims_ok (width flame) (height flame) →
  Init flame = None ↔ height flame = 0 ∧ 0 < width flame.
Proof.
  intros Hd. split.
  - intros Hnone.
    destruct (decide (0 < height flame ∨ width flame = 0)) as [Hok|Hno].
    + destruct (Init_cells flame Hd Hok) as (g & Hg & _). congruence.
    + destruct Hd as (Hw & Hh & _). lia.
  - intros [Hh Hw]. destruct flame as [w h g buf n r]; simpl in *. subst h.
    pose proof int_constants as (Hmin & Ha & Hmax).
    unfold Init. cbn [width height buffer renders rand].
    rewrite (int_mul_small w 0) by lia.
    rewrite make_int8_ok by lia. cbn [mbind option_bind].
    destruct (upto_cons w Hw) as (xs & -> & _).
    rewrite for_each_cons.
    replace (w * 0) with 0 by lia.
    change (replicate (Z.to_nat 0) 0) with (@nil Z).
    by rewrite store_empty.
Qed.

(** X2.  [Init] panics when the product of the dimensions, an [int], is
    negative (one of them is negative and the other positive): [make]
    refuses the length. *)
Theorem Init_refused {R} (flame : Flame R) :
  min_int ≤ width flame * height flame < 0 →
  Init flame = None.
Proof.
  intros Hn. pose proof int_constants as (Hmin & Ha & Hmax).
  unfold Init. cbv zeta.
  rewrite (int_mul_small (width flame) (height flame)) by lia.
  unfold make_int8.
  destruct (Z.ltb_spec (width flame * height flame) 0); [done | lia].
Qed.

Section SpreadEdges.
Context {R : Type} `{RandSource R}.

(** X3.  With at most one row, or with no column, [Spread] has no source
    cell: it returns the flame as it is, grid and generator untouched (no
    number is drawn). *)
Theorem Spread_nothing_to_do (flame : Flame R) :
  min_int < height flame ≤ 1 ∨ width flame ≤ 0 →
  Spread flame = Some flame.
Proof.
  destruct flame as [w h g buf n r]; simpl. intros Hedge.
  pose proof int_constants as (Hmin & Ha & Hmax).
  unfold Spread; simpl.
  rewrite for_each_unchanged; [done|].
  intros y st Hy. destruct Hedge as [Hh|Hw].
  - rewrite (int_sub_small h 1) in Hy by lia.
    apply elem_of_downfrom in Hy. lia.
  - unfold spread_row, upto. by rewrite seqZ_nil.
Qed.

End SpreadEdges.

(** In the row pair that starts at the last row of a grid of odd height,
    the first cell already panics: its lower half is outside the grid. *)
Lemma render_cell_last_row w h g p :
  dims_ok w h → Z.of_nat (length g) = w * h → 0 < w → 0 < h →
  render_cell w g (h - 1) 0 p = None.
Proof.
  intros Hd Hlen Hw Hh.
  pose proof (dims_ok_product w h Hd) as Hwh.
  destruct (row_bounds w h (h - 1) Hd) as [Hp1 Hp2]; [lia|].
  pose proof int_constants as (Hmin & Ha & Hmax).
  destruct Hd as (Hw' & Hh' & _).
  unfold render_cell. int_plain.
  rewrite (index_in g ((h - 1) * w + 0)) by lia. simpl.
  destruct (mapColor_is_Some (g !!! Z.to_nat ((h - 1) * w + 0))) as [c ->].
  simpl.
  replace (index g ((h - 1 + 1) * w + 0)) with (@None Z); [done|].
  symmetry. unfold index, in_bounds. compare_cases.
Qed.

(** X4.  On a well-formed flame [Render] panics exactly when the height is
    odd and there is a column: the last row then has no row under it. *)
Theorem Render_panics_iff {R} (flame : Flame R) :
  flame_wf flame →
  Render flame = None ↔ Z.even (height flame) = false ∧ 0 < width flame.
Proof.
  intros Hwf. pose proof Hwf as [Hd Hlen]. pose proof Hd as (Hw & Hh & _).
  split.
  - intros Hnone. destruct (Z.even (height flame)) eqn:Hev.
    + destruct (Render_total flame Hwf Hev) as (o & Ho & _). congruence.
    + split; [done|].
      destruct (decide (0 < width flame)) as [|Hw0]; [done|].
      assert (width flame = 0) as Hz by lia.
      unfold Render in Hnone.
      rewrite for_each_unchanged in Hnone; [done|].
      intros y p _. unfold render_row, upto. rewrite Hz. by rewrite seqZ_nil.
  - intros [Hodd Hpos]. unfold Render.
    assert (0 < height flame) as Hhpos.
    { destruct (decide (height flame = 0)) as [Hz|]; [|lia].
      rewrite Hz in Hodd. done. }
    rewrite (for_each_panics _ _ (height flame - 1)); [done| |].
    + apply elem_of_evens_below. split; [lia|].
      rewrite <- Z.negb_odd, <- Z.even_succ.
      replace (Z.succ (height flame - 1)) with (height flame) by lia.
      by rewrite Hodd.
    + intros p. unfold render_row.
      destruct (upto_cons (width flame) Hpos) as (xs & -> & _).
      rewrite for_each_cons.
      by rewrite (render_cell_last_row _ (height flame)).
Qed.

(** ** Construction *)

Lemma apply_withDimentions {R E} (sizes : list (Z * Z)) (w h : Z) (r : R) :
  apply_options (E := E)
    ((λ wh, withDimentions wh.1 wh.2) <$> sizes) (newFlame w h r)
  = inr (newFlame (default (w, h) (last sizes)).1
           (default (w, h) (last sizes)).2 r).
Proof.
  revert w h. induction sizes as [|[w1 h1] sizes IH]; intros w h.
  - reflexivity.
  - rewrite fmap_cons.
    change (apply_options (withDimentions (w1, h1).1 (w1, h1).2
                           :: ((λ wh, withDimentions wh.1 wh.2) <$> sizes))
              (newFlame w h r))
      with (apply_options (E := E)
              ((λ wh, withDimentions wh.1 wh.2) <$> sizes)
              (newFlame w1 h1 r)).
    rewrite IH. rewrite last_cons. by destruct (last sizes).
Qed.

(** X5.  Options built by [withDimentions] never fail, and of several the
    last decides: [newFlame] returns a flame with its dimensions (0 by 0
    without any), no grid, an empty buffer and no render counted. *)
Theorem newFlame_last_dimensions {R E} (sizes : list (Z * Z)) (r : R) :
  newFlame_opts (E := E) r ((λ wh, withDimentions wh.1 wh.2) <$> sizes)
  = inr (mkFlame (default (0, 0) (last sizes)).1
           (default (0, 0) (last sizes)).2 [] EmptyString 0 r).
Proof. unfold newFlame_opts. apply (apply_withDimentions sizes 0 0 r). Qed.

(** ** What a frame paints *)

(** A loop whose iterations each append to a log appends, in all, what its
    iterations append in turn. *)
Lemma for_each_log {A St B} (body : A → St → option St) (I : St → Prop)
    (log : St → list B) (f : A → list B) xs s :
  I s →
  (∀ x s, x ∈ xs → I s →
     ∃ s', body x s = Some s' ∧ I s' ∧ log s' = log s ++ f x) →
  ∃ s', for_each body xs s = Some s' ∧ I s' ∧ log s' = log s ++ (xs ≫= f).
Proof.
  revert s. induction xs as [|x xs IH]; intros s Hs Hbody; simpl.
  - exists s. by rewrite app_nil_r.
  - destruct (Hbody x s) as (s1 & -> & Hs1 & Hlog1); [left | done |]. simpl.
    destruct (IH s1) as (s2 & Hrun & Hs2 & Hlog2); [done | |].
    { intros x' s' Hx'. apply Hbody. by right. }
    exists s2. split; [done|]. split; [done|].
    rewrite Hlog2, Hlog1. by rewrite <- app_assoc.
Qed.

(** The unconditional writer paints one character cell with the palette
    colours of its two grid cells. *)
Lemma render_cell_always_paints t w h g y x buf :
  dims_ok w h → Z.of_nat (length g) = w * h →
  0 ≤ y → y + 1 < h → 0 ≤ x < w →
  mode (term_run t buf) = Ground →
  ∃ buf', render_cell_always w g y x buf = Some buf'
    ∧ mode (term_run t buf') = Ground
    ∧ painted (term_run t buf')
      = painted (term_run t buf) ++ [cell_inks w g y x].
Proof.
  intros Hd Hlen Hy0 Hy1 Hx Hmode.
  pose proof (dims_ok_product w h Hd) as Hwh.
  destruct (row_bounds w h y Hd) as [Hp1 Hp2]; [lia|].
  destruct (row_bounds w h (y + 1) Hd) as [Hq1 Hq2]; [lia|].
  pose proof int_constants as (Hmin & Ha & Hmax).
  destruct Hd as (Hw & Hh & _).
  unfold render_cell_always, cell_inks. int_plain.
  rewrite (index_in g (y * w + x)) by lia. simpl.
  destruct (mapColor_is_Some (g !!! Z.to_nat (y * w + x))) as [c1 Hc1].
  rewrite Hc1. simpl.
  rewrite (index_in _ ((y + 1) * w + x)) by lia. simpl.
  destruct (mapColor_is_Some (g !!! Z.to_nat ((y + 1) * w + x))) as [c2 Hc2].
  rewrite Hc2. simpl.
  destruct (mapColor_bytes _ _ Hc1) as [Hb1 _].
  destruct (mapColor_bytes _ _ Hc2) as [Hb2 _].
  eexists. split; [done|].
  destruct (term_run t buf) as [m f b cs] eqn:Ht. simpl in Hmode. subst m.
  rewrite !term_run_app, Ht.
  rewrite term_run_set_foreground, term_run_set_background by done.
  by rewrite term_run_glyph.
Qed.

(** What the unconditional renderer paints after whatever came before the
    frame: the picture of the grid. *)
Lemma RenderAlways_paints {R} (flame : Flame R) t :
  flame_wf flame → Z.even (height flame) = true →
  ∃ o, RenderAlways flame = Some o
    ∧ decode t o
      = decode t (buffer flame ++ cursor_home)
        ++ frame_inks (width flame) (height flame) (grid flame).
Proof.
  intros [Hd Hlen] Hev. unfold RenderAlways, decode, frame_inks.
  edestruct (for_each_log
    (λ y, for_each (render_cell_always (width flame) (grid flame) y)
            (upto (width flame)))
    (λ buf, mode (term_run t buf) = Ground)
    (λ buf, painted (term_run t buf))
    (λ y, x ← upto (width flame);
          [cell_inks (width flame) (grid flame) y x])
    (evens_below (height flame)) (buffer flame ++ cursor_home)%string)
    as (o & Ho & _ & Hlog).
  - apply term_run_cursor_home.
  - intros y buf Hy Hmode.
    destruct (evens_below_even _ _ Hev Hy) as [Hy0 Hy1].
    apply (for_each_log _ (λ buf, mode (term_run t buf) = Ground)
             (λ buf, painted (term_run t buf))
             (λ x, [cell_inks (width flame) (grid flame) y x])); [done|].
    intros x buf' Hx Hmode'. apply elem_of_upto in Hx.
    by apply (render_cell_always_paints t _ (height flame)).
  - eauto.
Qed.

Lemma length_bind_uniform {A B} (f : A → list B) (n : nat) xs :
  (∀ x, length (f x) = n) → length (xs ≫= f) = (length xs * n)%nat.
Proof.
  intros Hf. induction xs as [|x xs IH]; [done|].
  rewrite bind_cons, length_app, Hf, IH. simpl. lia.
Qed.

Lemma length_frame_inks w h g :
  0 ≤ w ∧ 0 ≤ h → Z.even h = true →
  Z.of_nat (length (frame_inks w h g)) = w * (h / 2).
Proof.
  intros [Hw Hh] Hev. unfold frame_inks.
  rewrite (length_bind_uniform _ (Z.to_nat w)).
  - unfold evens_below. rewrite length_fmap, length_seqZ.
    apply Z.even_spec in Hev as [m ->].
    replace ((2 * m + 1) / 2) with m by (Z.div_mod_to_equations; lia).
    replace (2 * m / 2) with m by (Z.div_mod_to_equations; lia).
    nia.
  - intros y. rewrite (length_bind_uniform _ 1%nat); [|done].
    rewrite length_upto. lia.
Qed.

(** The terminal, in its ground state, has nothing painted after the
    cursor-home sequence. *)
Lemma decode_cursor_home t : mode t = Ground → decode t cursor_home = [].
Proof. destruct t as [m f b cs]. simpl. by intros ->. Qed.

(** X6.  The frame [Render] writes for a well-formed flame of even height
    whose cells are intensities, read by a terminal in its ground state,
    paints exactly the picture of the grid: for each pair of rows and each
    column, in that order, one character cell with the palette colour of the
    upper grid cell as foreground and that of the lower one as background. *)
Theorem Render_paints_grid {R} (flame : Flame R) (t : terminal) :
  flame_wf flame → Z.even (height flame) = true →
  grid_in_range (grid flame) → buffer flame = EmptyString →
  mode t = Ground →
  ∃ flame' o, Render flame = Some (flame', o)
    ∧ decode t o = frame_inks (width flame) (height flame) (grid flame)
    ∧ Z.of_nat (length (decode t o)) = width flame * (height flame / 2).
Proof.
  intros Hwf Hev Hg Hbuf Hmode.
  destruct (RenderAlways_paints flame t Hwf Hev) as (o2 & Ho2 & Hd2).
  rewrite Hbuf in Hd2.
  change ("" ++ cursor_home)%string with cursor_home in Hd2.
  rewrite decode_cursor_home in Hd2 by done. simpl in Hd2.
  unfold RenderAlways in Ho2. unfold Render.
  set (p0 := mkPen (buffer flame ++ cursor_home) (0, 0, 0) (0, 0, 0)).
  set (b0 := (buffer flame ++ cursor_home)%string) in *.
  assert (same_picture t (grid flame) p0 b0) as H0.
  { unfold same_picture, p0, b0. cbn [out prevfg prevbg].
    rewrite term_run_cursor_home. repeat split; auto. }
  assert (option_Forall2 (same_picture t (grid flame))
            (for_each (render_row (width flame) (grid flame))
               (evens_below (height flame)) p0)
            (for_each
               (λ y, for_each (render_cell_always (width flame) (grid flame) y)
                       (upto (width flame)))
               (evens_below (height flame)) b0)) as Hsim.
  { apply for_each_sim; [done|].
    intros y p buf _ Hrel. apply for_each_sim; [done|].
    intros x p' buf' _ Hrel'. by apply render_cell_sim. }
  rewrite Ho2 in Hsim.
  inversion Hsim as [p buf (_ & _ & Hpaint & _) Hp Hb|]; subst buf.
  simpl. do 2 eexists. split; [done|]. simpl.
  assert (decode t (out p)
          = frame_inks (width flame) (height flame) (grid flame)) as Hdec.
  { unfold decode. rewrite Hpaint. exact Hd2. }
  split; [exact Hdec|]. rewrite Hdec. apply length_frame_inks; [|done].
  destruct Hwf as [(Hw & Hh & _) _]. lia.
Qed.

Lemma string_length_app (s1 s2 : string) :
  String.length (s1 ++ s2) = (String.length s1 + String.length s2)%nat.
Proof. induction s1 as [|c s1 IH]; simpl; [done | by rewrite IH]. Qed.

(** One cell costs the cached writer no more bytes than the unconditional
    one, and they panic together. *)
Lemma render_cell_shorter w g y x p buf :
  (String.length (out p) ≤ String.length buf)%nat →
  option_Forall2
    (λ p' buf', (String.length (out p') ≤ String.length buf')%nat)
    (render_cell w g y x p) (render_cell_always w g y x buf).
Proof.
  intros Hlen. unfold render_cell, render_cell_always.
  destruct (index g (int_add (int_mul y w) x)) as [v1|]; simpl;
    [|constructor].
  destruct (mapColor v1) as [c1|]; simpl; [|constructor].
  destruct (index g (int_add (int_mul (int_add y 1) w) x)) as [v2|]; simpl;
    [|constructor].
  destruct (mapColor v2) as [c2|]; simpl; [|constructor].
  constructor.
  destruct (negb (color_eqb c1 (prevfg p)));
    destruct (negb (color_eqb c2 _)); simpl;
    rewrite !string_length_app; lia.
Qed.

(** X7.  Suppressing repeated colour sequences never costs bytes: whenever
    [Render] returns, its output is at most as long as that of the renderer
    that writes both sequences for every cell (and the two panic on the same
    flames). *)
Theorem Render_never_longer {R} (flame : Flame R) :
  option_Forall2
    (λ fo o', (String.length fo.2 ≤ String.length o')%nat)
    (Render flame) (RenderAlways flame).
Proof.
  unfold Render, RenderAlways.
  set (p0 := mkPen (buffer flame ++ cursor_home) (0, 0, 0) (0, 0, 0)).
  assert (option_Forall2
            (λ p' buf', (String.length (out p') ≤ String.length buf')%nat)
            (for_each (render_row (width flame) (grid flame))
               (evens_below (height flame)) p0)
            (for_each
               (λ y, for_each (render_cell_always (width flame) (grid flame) y)
                       (upto (width flame)))
               (evens_below (height flame))
               (buffer flame ++ cursor_home)%string)) as Hsim.
  { apply for_each_sim; [done|].
    intros y p buf _ Hrel. apply for_each_sim; [done|].
    intros x p' buf' _ Hrel'. by apply render_cell_shorter. }
  inversion Hsim as [p buf Hle Hp Hb|Hp Hb]; simpl; by constructor.
Qed.

(** ** The loop of [fire] *)

Lemma Init_without_rows {R} (flame : Flame R) :
  0 < width flame ≤ max_int → height flame = 0 → Init flame = None.
Proof.
  intros Hw Hh. destruct flame as [w h g buf n r]; simpl in *. subst h.
  pose proof int_constants as (Hmin & Ha & Hmax).
  unfold Init. cbn [width height buffer renders rand].
  rewrite (int_mul_small w 0) by lia.
  rewrite make_int8_ok by lia. cbn [mbind option_bind].
  destruct (upto_cons w) as (xs & -> & _); [lia|].
  rewrite for_each_cons.
  replace (w * 0) with 0 by lia.
  change (replicate (Z.to_nat 0) 0) with (@nil Z).
  by rewrite store_empty.
Qed.

Section FireLoop.
Context {R : Type} `{RandSource R}.
Implicit Types flame : Flame R.

Lemma max_alloc_screens : 65535 * (2 * 65535) ≤ max_alloc.
Proof. unfold max_alloc. lia. Qed.

Lemma main_dims_ok width height :
  terminal_size width height →
  Height (main_dims width height) = 2 * height
  ∧ dims_ok width (2 * height).
Proof.
  intros [Hw Hh]. pose proof int_constants as (Hmin & Ha & Hmax).
  pose proof max_alloc_screens as Hscreen.
  unfold main_dims; simpl. rewrite int_mul_small by lia.
  split; [lia|]. unfold dims_ok.
  assert (width * (2 * height) ≤ 65535 * (2 * 65535)) by nia.
  lia.
Qed.

Lemma SetDimensions_between_frames flame width height :
  buffer flame = EmptyString →
  terminal_size width height → 0 < height ∨ width = 0 →
  ∃ flame', SetDimensions flame (main_dims width height) = Some flame'
    ∧ between_frames flame'.
Proof.
  intros Hbuf Hsize Hrows.
  destruct (main_dims_ok width height Hsize) as [Hh Hd].
  unfold main_dims in *. simpl in Hh. rewrite Hh.
  destruct (SetDimensions_flat flame width (2 * height) Hd)
    as (g & -> & Hlen & Hcells); [lia|].
  eexists. split; [done|]. unfold between_frames, flame_wf; simpl.
  split; [done|]. split; [by rewrite Z.even_mul|].
  split; [by eapply zero_or_max_in_range | done].
Qed.

Lemma frame_between_frames flame :
  between_frames flame →
  ∃ flame1 frame flame2,
    Render flame = Some (flame1, frame) ∧ Spread flame1 = Some flame2
    ∧ extends cursor_home frame ∧ between_frames flame2.
Proof.
  intros (Hwf & Hev & Hg & Hbuf).
  destruct (Render_total flame Hwf Hev) as (o & Hr & Hext).
  rewrite Hbuf in Hext.
  set (flame1 := mkFlame (width flame) (height flame) (grid flame)
                   EmptyString (int_add (renders flame) 1) (rand flame)) in *.
  destruct (Spread_invariant grid_in_range flame1) as (g & r & Hs & Hlen & Hg');
    [split; [apply Hwf | apply Hwf] | | done |].
  { intros g d v Hgr _ _ Hv. by apply Forall_insert. }
  do 3 eexists. split; [exact Hr|]. split; [exact Hs|]. split; [exact Hext|].
  unfold between_frames, flame_wf; simpl.
  split; [split; [apply Hwf | done]|]. done.
Qed.

Lemma fire_loop_runs evs flame :
  between_frames flame → sizes_have_rows evs →
  ∃ flame' frames, fire_loop evs flame = Some (flame', frames)
    ∧ between_frames flame'
    ∧ length frames = frames_due evs
    ∧ Forall (extends cursor_home) frames.
Proof.
  revert flame. induction evs as [|[|d|] evs IH]; intros flame Hinv Hsizes.
  - exists flame, []. simpl.
    split; [done|]. split; [done|]. split; [done | constructor].
  - exists flame, []. simpl.
    split; [done|]. split; [done|]. split; [done | constructor].
  - destruct Hsizes as [(width & height & -> & Hsize & Hrows) Hsizes].
    destruct (SetDimensions_between_frames flame width height)
      as (flame1 & Hset & Hinv1); [apply Hinv | done..|].
    destruct (IH flame1 Hinv1 Hsizes) as (flame' & frames & Hrun & Hrest).
    exists flame', frames. split; [|done].
    simpl. rewrite Hset. simpl. exact Hrun.
  - destruct (frame_between_frames flame Hinv)
      as (flame1 & frame & flame2 & Hr & Hs & Hext & Hinv2).
    destruct (IH flame2 Hinv2 Hsizes)
      as (flame' & frames & Hrun & Hinv' & Hcount & Hall).
    exists flame', (frame :: frames). split.
    { simpl. rewrite Hr. simpl. rewrite Hs. simpl. rewrite Hrun. done. }
    split; [done|]. split; [simpl; by rewrite Hcount|].
    by constructor.
Qed.

(** X8.  Fed with the sizes [main] sends, each the doubled size of a
    terminal that has rows whenever it has columns, the loop of [fire] never
    panics, whatever the order of resizes and frames and whatever the
    generator draws.  It writes one frame per [default] iteration, each
    starting with the cursor-home sequence, and ends on a grid of intensities
    with one cell per position, an even height and an empty buffer. *)
Theorem fire_never_panics (evs : list event) (r : R) :
  sizes_have_rows evs →
  ∃ flame frames, fire evs r = Some (flame, frames)
    ∧ between_frames flame
    ∧ length frames = frames_due evs
    ∧ Forall (extends cursor_home) frames.
Proof.
  intros Hsizes. unfold fire. apply fire_loop_runs; [|done].
  unfold between_frames, flame_wf, dims_ok, grid_in_range; simpl.
  pose proof int_constants as (Hmin & Ha & Hmax).
  repeat split; try lia. constructor.
Qed.

(** X9.  A terminal that reports columns but no rows brings the program
    down: when the loop of [fire] receives the dimensions [main] builds from
    such a size before the context is done, it panics (in [Init], if not
    earlier), whatever came before and whatever the flame. *)
Theorem fire_panics_without_rows (evs evs' : list event) flame (width : Z) :
  Done ∉ evs → 0 < width ≤ max_int →
  fire_loop (evs ++ Received (main_dims width 0) :: evs') flame = None.
Proof.
  intros Hdone Hw. revert flame.
  induction evs as [|[|d|] evs IH]; intros flame.
  - simpl. unfold SetDimensions.
    rewrite Init_without_rows; [done | done |].
    simpl. pose proof int_constants as (Hmin & Ha & Hmax).
    by rewrite int_mul_small by lia.
  - exfalso. apply Hdone. by left.
  - apply not_elem_of_cons in Hdone as [_ Hdone]. simpl.
    destruct (SetDimensions flame d); simpl; [by apply IH | done].
  - apply not_elem_of_cons in Hdone as [_ Hdone]. simpl.
    destruct (Render flame) as [[flame1 frame]|]; simpl; [|done].
    destruct (Spread flame1) as [flame2|]; simpl; [|done].
    by rewrite IH.
Qed.

End FireLoop.

(** ** One call of [Spread] reaches every row *)

Lemma flat_index_inj w y x y' x' :
  0 ≤ x < w → 0 ≤ x' < w → y * w + x = y' * w + x' → y = y' ∧ x = x'.
Proof.
  intros Hx Hx' Heq. destruct (Z.lt_trichotomy y y') as [Hlt|[->|Hgt]].
  - assert ((y + 1) * w ≤ y' * w) by nia. lia.
  - lia.
  - assert ((y' + 1) * w ≤ y * w) by nia. lia.
Qed.

Lemma lookup_downfrom n k y :
  downfrom n !! k = Some y → y = n - Z.of_nat k ∧ Z.of_nat k < n.
Proof.
  unfold downfrom. intros Hk.
  apply reverse_lookup_Some in Hk as [Hk Hlt].
  rewrite length_seqZ in Hk, Hlt. apply lookup_seqZ in Hk as [-> Hk]. lia.
Qed.

Lemma length_downfrom n : length (downfrom n) = Z.to_nat n.
Proof. unfold downfrom. by rewrite length_reverse, length_seqZ. Qed.

Section Steady.
Context {R : Type} `{RandSource R}.
Hypothesis draws_2 : ∀ r : R, (Intn 6 r).1 = 2.

(** With every draw 2 the step copies the source, less 1 and not below 0,
    to the cell right above it. *)
Lemma propagate_cell_steady w h y x g (r : R) :
  dims_ok w h → 1 ≤ y < h → 0 ≤ x < w →
  ∃ r', propagate_cell w h y x (g, r)
        = (<[Z.to_nat ((y - 1) * w + x) :=
               clamp 0 35 (g !!! Z.to_nat (y * w + x) - 1)]> g, r').
Proof.
  intros Hd Hy Hx.
  destruct (row_bounds w h y Hd) as [Hp1 Hp2]; [lia|].
  destruct (row_bounds w h (y - 1) Hd) as [Hq1 Hq2]; [lia|].
  unfold propagate_cell.
  pose proof (draws_2 r) as Hj.
  destruct (Intn 6 r) as [j r1]; simpl in Hj; subst j. cbv zeta.
  replace ((y - 1) * w + x + (2 - 2)) with ((y - 1) * w + x) by lia.
  destruct (Z.ltb_spec ((y - 1) * w + x) ((y - 1) * w)); [lia|].
  rewrite (Z.gtb_ltb _ (y * w + w)).
  destruct (Z.ltb_spec (y * w + w) ((y - 1) * w + x)); [lia|]. simpl.
  rewrite (Z.gtb_ltb _ (w * h - 1)).
  destruct (Z.ltb_spec (w * h - 1) ((y - 1) * w + x)); [lia|].
  pose proof (draws_2 r1) as Hk.
  destruct (Intn 6 r1) as [k r2]; simpl in Hk; subst k.
  exists r2. do 3 f_equal.
Qed.

(** X10.  Rows are taken from the bottom up and each step reads the grid as
    the steps before it left it, so one call of [Spread] carries the heat of
    the bottom row through every row above.  When every draw is 2 (no drift,
    decay 1), one call after [SetDimensions] leaves row y at 35 less its
    distance from the bottom row, and not below 0, in every column. *)
Theorem Spread_reaches_every_row (flame : Flame R) (w h : Z) :
  dims_ok w h → 0 < h →
  ∃ flame1 flame2,
    SetDimensions flame (mkDimensions w h) = Some flame1
    ∧ Spread flame1 = Some flame2
    ∧ ∀ y x, 0 ≤ y < h → 0 ≤ x < w →
        cell flame2 y x = Some (Z.max 0 (35 - (h - 1 - y))).
Proof.
  intros Hd Hh.
  destruct (SetDimensions_flat flame w h Hd) as (g1 & Hset & Hlen & Hcells);
    [by left|].
  pose proof int_constants as (Hmin & Ha & Hmax).
  pose proof Hd as (Hw' & Hh' & _).
  set (target := λ y : Z, Z.max 0 (35 - (h - 1 - y))).
  edestruct (for_each_invariant_at (spread_row w h)
    (λ k (st : list Z * R),
       Z.of_nat (length st.1) = w * h ∧ grid_in_range st.1
       ∧ ∀ y x, 0 ≤ y < h → 0 ≤ x < w →
           st.1 !! Z.to_nat (y * w + x)
           = Some (if h - 1 - Z.of_nat k <=? y then target y else 0))
    (downfrom (h - 1)) (g1, rand flame)) as ([g2 r2] & Hrun & Hl2 & _ & Hfinal).
  - simpl. split; [done|]. split; [by eapply zero_or_max_in_range|].
    intros y x Hy Hx.
    destruct (row_bounds w h y Hd) as [Hp1 Hp2]; [lia|].
    rewrite Hcells by lia. f_equal. unfold target.
    destruct (decide (y = h - 1)) as [->|Hne].
    + compare_cases.
    + assert ((y + 1) * w ≤ (h - 1) * w) by nia. compare_cases.
  - intros k y0 [g r] Hk (Hl & Hg & Hrows). simpl in Hl, Hg, Hrows.
    apply lookup_downfrom in Hk as [-> Hk].
    set (y0 := h - 1 - Z.of_nat k) in *.
    unfold spread_row.
    edestruct (for_each_invariant_at (spread_cell w h y0)
      (λ m (st : list Z * R),
         Z.of_nat (length st.1) = w * h ∧ grid_in_range st.1
         ∧ ∀ y x, 0 ≤ y < h → 0 ≤ x < w →
             st.1 !! Z.to_nat (y * w + x)
             = Some (if y0 <=? y then target y
                     else if (y =? y0 - 1) && (x <? Z.of_nat m)
                          then target (y0 - 1) else 0))
      (upto w) (g, r)) as ([g' r'] & Hrow & Hl' & Hg' & Hrows').
    + simpl. split; [done|]. split; [done|].
      intros y x Hy Hx. rewrite Hrows by done. f_equal. compare_cases.
    + intros m x0 [ga ra] Hm (Hla & Hga & Hcur). simpl in Hla, Hga, Hcur.
      apply lookup_upto in Hm as [-> Hm].
      destruct (spread_cell_propagate w h y0 (Z.of_nat m) ga ra)
        as (-> & Hlb & Hgb); [done | lia | lia | done | done |].
      destruct (propagate_cell_steady w h y0 (Z.of_nat m) ga ra)
        as (rb & Hstep); [done | lia | lia |].
      rewrite Hstep in Hlb, Hgb |- *. simpl in Hlb, Hgb.
      eexists. split; [done|]. simpl. split; [done|]. split; [done|].
      intros y x Hy Hx.
      destruct (row_bounds w h y Hd) as [Hp1 Hp2]; [lia|].
      destruct (row_bounds w h (y0 - 1) Hd) as [Hq1 Hq2]; [lia|].
      destruct (row_bounds w h y0 Hd) as [Hs1 Hs2]; [lia|].
      destruct (decide (y = y0 - 1 ∧ x = Z.of_nat m)) as [[-> ->]|Hne].
      * rewrite list_lookup_insert_eq by lia.
        assert (ga !!! Z.to_nat (y0 * w + Z.of_nat m) = target y0) as ->.
        { apply list_lookup_total_correct. rewrite Hcur by lia.
          f_equal. compare_cases. }
        f_equal. unfold target, clamp. compare_cases.
      * rewrite list_lookup_insert_ne.
        2:{ intros Heq. apply Hne.
            apply (flat_index_inj w); [lia | lia | lia]. }
        rewrite Hcur by done. f_equal. compare_cases.
    + rewrite Hrow. eexists. split; [done|]. simpl.
      split; [done|]. split; [done|].
      intros y x Hy Hx. rewrite Hrows' by done. rewrite length_upto.
      f_equal. unfold target, y0. compare_cases.
  - exists (mkFlame w h g1 (buffer flame) (renders flame) (rand flame)).
    exists (mkFlame w h g2 (buffer flame) (renders flame) r2).
    split; [exact Hset|]. split.
    + unfold Spread; simpl. rewrite (int_sub_small h 1) by lia.
      by rewrite Hrun.
    + intros y x Hy Hx. simpl in Hfinal, Hl2.
      destruct (row_bounds w h y Hd) as [Hp1 Hp2]; [lia|].
      rewrite cell_flat. simpl. unfold index.
      rewrite in_bounds_true by lia. rewrite Hfinal by done.
      rewrite length_downfrom. f_equal. unfold target. compare_cases.
Qed.

End Steady.

(** ** Worked instances of the further properties *)

Lemma Init_panics_iff_witness :
  dims_ok 5 0 ∧ Init (newFlame 5 0 ([] : scripted)) = None.
Proof.
  assert (dims_ok 5 0) as Hd by (unfold dims_ok, max_int, max_alloc; lia).
  split; [exact Hd|].
  apply (Init_panics_iff (newFlame 5 0 ([] : scripted)) Hd).
  split; [reflexivity | reflexivity].
Defined.

Lemma Init_refused_witness :
  min_int ≤ -2 * 3 < 0 ∧ Init (newFlame (-2) 3 ([] : scripted)) = None.
Proof.
  assert (min_int ≤ -2 * 3 < 0) as Hn by (unfold min_int; lia).
  split; [exact Hn|].
  apply (Init_refused (newFlame (-2) 3 ([] : scripted)) Hn).
Defined.

Lemma Spread_nothing_to_do_witness :
  Spread (mkFlame 3 1 [35; 35; 35] EmptyString 0 ([4; 4] : scripted))
  = Some (mkFlame 3 1 [35; 35; 35] EmptyString 0 [4; 4]).
Proof.
  apply (Spread_nothing_to_do
           (mkFlame 3 1 [35; 35; 35] EmptyString 0 ([4; 4] : scripted))).
  left. simpl. unfold min_int. lia.
Defined.

Lemma flame_2x3_wf : flame_wf flame_2x3.
Proof.
  split; [unfold dims_ok, max_int, max_alloc; simpl; lia | reflexivity].
Defined.

Lemma Render_panics_iff_witness :
  flame_wf flame_2x3 ∧ Render flame_2x3 = None.
Proof.
  split; [exact flame_2x3_wf|].
  apply (Render_panics_iff flame_2x3 flame_2x3_wf).
  split; [reflexivity | reflexivity].
Defined.

Lemma Render_paints_grid_witness :
  ∃ flame' o, Render flame_4x4 = Some (flame', o)
    ∧ decode blank_terminal o = frame_inks 4 4 (grid flame_4x4)
    ∧ Z.of_nat (length (decode blank_terminal o)) = 4 * (4 / 2).
Proof.
  apply (Render_paints_grid flame_4x4 blank_terminal flame_4x4_wf);
    [reflexivity | exact flame_4x4_in_range | reflexivity | reflexivity].
Defined.

Lemma short_run_sizes : sizes_have_rows short_run.
Proof.
  simpl. split; [|exact I]. exists 4, 2.
  split; [reflexivity|]. unfold terminal_size. lia.
Defined.

Lemma fire_never_panics_witness :
  sizes_have_rows short_run
  ∧ ∃ flame frames, fire short_run ([] : scripted) = Some (flame, frames)
      ∧ between_frames flame
      ∧ length frames = frames_due short_run
      ∧ Forall (extends cursor_home) frames.
Proof.
  split; [exact short_run_sizes|].
  apply (fire_never_panics short_run ([] : scripted) short_run_sizes).
Defined.

Lemma fire_panics_without_rows_witness :
  fire_loop ([Default; Received (main_dims 4 2); Default]
             ++ Received (main_dims 80 0) :: [Default; Done])
    (newFlame 0 0 ([] : scripted))
  = None.
Proof.
  apply (fire_panics_without_rows
           [Default; Received (main_dims 4 2); Default] [Default; Done]
           (newFlame 0 0 ([] : scripted)) 80).
  - intros Hin. repeat (apply elem_of_cons in Hin as [Hin|Hin]; [discriminate|]).
    by apply elem_of_nil in Hin.
  - unfold max_int. lia.
Defined.

Lemma steady_draws_2 : ∀ r : steady, (Intn 6 r).1 = 2.
Proof. intros r. reflexivity. Defined.

Lemma Spread_reaches_every_row_witness :
  ∃ flame1 flame2,
    SetDimensions (newFlame 0 0 (tt : steady)) (mkDimensions 3 4) = Some flame1
    ∧ Spread flame1 = Some flame2
    ∧ ∀ y x, 0 ≤ y < 4 → 0 ≤ x < 3 →
        cell flame2 y x = Some (Z.max 0 (35 - (4 - 1 - y))).
Proof.
  apply (Spread_reaches_every_row (R := steady) steady_draws_2
           (newFlame 0 0 tt) 3 4).
  - unfold dims_ok, max_int, max_alloc. lia.
  - lia.
Defined.
